(** * scrape_reviews.py: a shallow embedding and its verified properties

    The program scrapes review cards from rendered pages (an in-page
    JavaScript extractor), accumulates them over pagination rounds,
    normalises and filters them by date per source, and writes a JSON file.

    Strings are [string]; one [ascii] stands for one character of the
    source language (a UTF-16 unit in the in-page script, a code point in
    Python), restricted to the 8-bit range.  Python dictionaries and JS
    sets are [gmap] and [gset].  Exceptions are explicit: a computation
    that may raise returns a [result]. *)

From Stdlib Require Import ZArith String Ascii List Bool Lia.
From stdpp Require Import base option list gmap strings.

Local Open Scope Z_scope.

(** ** Exceptions and the error monad *)

(** The exceptions the program meets.  [PWTimeoutError] is the
    [TimeoutError] of Playwright, [PlaywrightError] any other error of
    Playwright. *)
Inductive exn :=
  | TypeError
  | ValueError
  | RuntimeError
  | ParserError
  | PlaywrightError
  | FileExistsError
  | FileNotFoundError
  | NotADirectoryError
  | IsADirectoryError
  | PWTimeoutError.

#[global] Instance exn_eq_dec : EqDecision exn.
Proof. solve_decision. Defined.

Inductive result (A : Type) :=
  | Ok (a : A)
  | Raise (e : exn).
Arguments Ok {A} a.
Arguments Raise {A} e.

#[global] Instance result_ret : MRet result := fun _ a => Ok a.
#[global] Instance result_bind : MBind result := fun _ _ f m =>
  match m with Ok a => f a | Raise e => Raise e end.

Definition is_ok {A} (m : result A) : bool :=
  match m with Ok _ => true | Raise _ => false end.

(** [try: ... except Exception: return None] *)
Definition catch_none {A} (m : result A) : option A :=
  match m with Ok a => Some a | Raise _ => None end.

(** ** Characters and strings *)

Module Str.

Definition code (c : ascii) : N := N_of_ascii c.

Definition between (lo hi : N) (c : ascii) : bool :=
  ((lo <=? code c) && (code c <=? hi))%N.

Definition is_digit : ascii -> bool := between 48 57.
Definition is_upper : ascii -> bool := between 65 90.
Definition is_lower : ascii -> bool := between 97 122.

(** [\w] of a JS regular expression: [A-Za-z0-9_]. *)
Definition is_word (c : ascii) : bool :=
  is_digit c || is_upper c || is_lower c || (code c =? 95)%N.

(** White space as [String.prototype.trim] and [\s] see it, in the 8-bit
    range: TAB, LF, VT, FF, CR, space and the no-break space. *)
Definition is_space (c : ascii) : bool :=
  between 9 13 c || (code c =? 32)%N || (code c =? 160)%N.

(** Lower-casing of one character: [A-Z] and the upper-case letters of
    Latin-1 (0xC0..0xDE without the multiplication sign 0xD7). *)
Definition lower_char (c : ascii) : ascii :=
  if is_upper c || (between 192 222 c && negb (code c =? 215)%N)
  then ascii_of_N (code c + 32) else c.

Definition chars : string -> list ascii := list_ascii_of_string.
Definition of_chars : list ascii -> string := string_of_list_ascii.

Definition lower (s : string) : string := of_chars (map lower_char (chars s)).

Fixpoint drop_space (l : list ascii) : list ascii :=
  match l with
  | c :: l' => if is_space c then drop_space l' else l
  | [] => []
  end.

Definition trim (s : string) : string :=
  of_chars (rev (drop_space (rev (drop_space (chars s))))).

(** [s.slice(0, n)] in the script and [s[:n]] in Python. *)
Definition take (n : nat) (s : string) : string := substring 0 n s.

Definition non_empty (s : string) : bool :=
  match s with EmptyString => false | String _ _ => true end.

Fixpoint starts_with (p l : list ascii) : bool :=
  match p, l with
  | [], _ => true
  | a :: p', b :: l' => bool_decide (a = b) && starts_with p' l'
  | _ :: _, [] => false
  end.

Fixpoint includes_chars (p l : list ascii) : bool :=
  starts_with p l ||
  match l with
  | [] => false
  | _ :: l' => includes_chars p l'
  end.

(** [s.includes(p)] *)
Definition includes (s p : string) : bool := includes_chars (chars p) (chars s).

(** [s.split(sep)] for a one-character separator. *)
Fixpoint split_chars (sep : ascii) (cur : list ascii) (l : list ascii)
  : list (list ascii) :=
  match l with
  | [] => [rev cur]
  | c :: l' =>
      if bool_decide (c = sep) then rev cur :: split_chars sep [] l'
      else split_chars sep (c :: cur) l'
  end.

Definition split (sep : ascii) (s : string) : list string :=
  map of_chars (split_chars sep [] (chars s)).

(** [parts.join(sep)] *)
Fixpoint join (sep : string) (parts : list string) : string :=
  match parts with
  | [] => ""
  | [p] => p
  | p :: rest => p +:+ sep +:+ join sep rest
  end.

(** A [\b] just after the last matched character, which is a word
    character: the next character is absent or not a word character. *)
Definition boundary_after (l : list ascii) : bool :=
  match l with
  | [] => true
  | c :: _ => negb (is_word c)
  end.

(** [\d{4,4}-\d{2}-\d{2}\b] at the head of [l]. *)
Definition date_at (l : list ascii) : bool :=
  match l with
  | y1 :: y2 :: y3 :: y4 :: d1 :: m1 :: m2 :: d2 :: a1 :: a2 :: rest =>
      is_digit y1 && is_digit y2 && is_digit y3 && is_digit y4 &&
      bool_decide (d1 = "-"%char) && is_digit m1 && is_digit m2 &&
      bool_decide (d2 = "-"%char) && is_digit a1 && is_digit a2 &&
      boundary_after rest
  | _ => false
  end.

Definition unit_at (l : list ascii) : bool :=
  existsb (fun w => starts_with (chars w) l &&
                    boundary_after (drop (String.length w) l))
          ["days"; "months"; "years"].

(** [\s+(days|months|years)\b] at the head of [l]. *)
Definition spaces_unit_at (l : list ascii) : bool :=
  match l with
  | c :: l' => is_space c && unit_at (drop_space l')
  | [] => false
  end.

(** [\d{1,2}\s+(days|months|years)\b] at the head of [l]. *)
Definition relative_at (l : list ascii) : bool :=
  match l with
  | a :: l1 =>
      is_digit a &&
      (spaces_unit_at l1 ||
       match l1 with
       | b :: l2 => is_digit b && spaces_unit_at l2
       | [] => false
       end)
  | [] => false
  end.

(** Search for a match of [\b] followed by [m], where [m] starts with a
    word character: the character before the match is absent or not a
    word character. *)
Fixpoint search_from (m : list ascii -> bool) (prev : option ascii)
    (l : list ascii) : bool :=
  (match prev with None => true | Some p => negb (is_word p) end && m l) ||
  match l with
  | [] => false
  | c :: l' => search_from m (Some c) l'
  end.

Definition matches (m : list ascii -> bool) (s : string) : bool :=
  search_from m None (chars s).

(** Decimal rendering of [z] on exactly [n] digits (the low ones). *)
Fixpoint digits (n : nat) (z : Z) : list ascii :=
  match n with
  | O => []
  | S n' => digits n' (z / 10) ++ [ascii_of_N (48 + Z.to_N (z mod 10))]
  end.

Definition pad (n : nat) (z : Z) : string := of_chars (digits n z).

End Str.

(** ** Values exchanged between the page and Python *)

(** What [page.evaluate] hands to Python for a field: a string, or
    [None] (a JS [null]); a missing key is the absence from the [dict]. *)
Inductive pyval :=
  | PyNone
  | PyStr (s : string).

#[global] Instance pyval_eq_dec : EqDecision pyval.
Proof. solve_decision. Defined.

Abbreviation dict := (gmap string pyval).

(** [r.get(k)] *)
Definition get (r : dict) (k : string) : pyval := default PyNone (r !! k).

(** [r.get(k, d)] *)
Definition get_or (r : dict) (k : string) (d : pyval) : pyval :=
  default d (r !! k).

(** [v or ""] on the values above. *)
Definition or_empty (v : pyval) : string :=
  match v with
  | PyStr s => s
  | PyNone => ""
  end.

(** Truth value of [v]. *)
Definition truthy (v : pyval) : bool :=
  match v with
  | PyStr s => Str.non_empty s
  | PyNone => false
  end.

Definition is_str (v : pyval) : Prop :=
  match v with PyStr _ => True | PyNone => False end.

(** ** The rendered page as the in-page script reads it *)

(** An HTML element: its visible text, its attributes, and the first
    descendant matching a selector.  Selectors are written without the
    quotation marks around attribute values. *)
#[local] Unset Elimination Schemes.
Inductive Element := mkElement {
  innerText : string;
  attributes : gmap string string;
  querySelector : string -> option Element
}.
#[local] Set Elimination Schemes.

(** [e.getAttribute(name)] *)
Definition getAttribute (e : Element) (name : string) : option string :=
  attributes e !! name.

(** JS [a || b] where [a] is a string or [null]. *)
Definition js_or (a : option string) (b : string) : string :=
  match a with
  | Some s => if Str.non_empty s then s else b
  | None => b
  end.

(** JS [a || b] on element handles. *)
Definition js_or_elem (a b : option Element) : option Element :=
  match a with Some _ => a | None => b end.

Module Script.

(** Lines 61-65: the test a node must pass to become a candidate. *)
Definition review_signal (low : string) : bool :=
  Str.includes low "review" || Str.includes low "stars" ||
  Str.matches Str.date_at low || Str.matches Str.relative_at low.

Definition is_candidate (n : Element) : bool :=
  let txt := innerText n in
  if (String.length txt <? 50)%nat then false
  else review_signal (Str.lower txt).

Definition candidates (nodes : list Element) : list Element :=
  filter (fun n => is_candidate n = true) nodes.

Record fields := mkFields {
  f_title : string;
  f_body : string;
  f_date : string;
  f_rating : string;
  f_reviewer : string
}.

(** Lines 72-106. *)
Definition extract_fields (c : Element) : fields :=
  let title0 :=
    match querySelector c "h1, h2, h3, .review-title, [class*=title]" with
    | Some h => Str.trim (innerText h)
    | None => ""
    end in
  let '(title, body) :=
    match querySelector c
      ".review-text, .review-body, [class*=comment], [class*=content], p" with
    | Some bodyNode => (title0, Str.trim (innerText bodyNode))
    | None =>
        let all := filter (fun s => Str.non_empty s = true)
                     (map Str.trim (Str.split "010"%char (Str.trim (innerText c)))) in
        if (2 <=? length all)%nat
        then (if Str.non_empty title0 then title0 else default "" (head all),
              Str.join " " (tail all))
        else (title0, Str.trim (innerText c))
    end in
  let date :=
    match js_or_elem (querySelector c "time")
                     (querySelector c "[class*=date], [class*=posted]") with
    | Some t => js_or (getAttribute t "datetime") (Str.trim (innerText t))
    | None => ""
    end in
  let rating :=
    match querySelector c "[aria-label*=star], [class*=rating], [class*=stars]" with
    | Some r => js_or (getAttribute r "aria-label") (Str.trim (innerText r))
    | None => ""
    end in
  let reviewer :=
    match querySelector c "[class*=author], [class*=user], [class*=reviewer]" with
    | Some rev => Str.trim (innerText rev)
    | None => ""
    end in
  mkFields title body date rating reviewer.

(** Line 109: the key of deduplication. *)
Definition dedup_key (title body : string) : string :=
  Str.take 200 (title +:+ "|" +:+ Str.take 80 body).

(** Lines 113-119: the object pushed to [results]. *)
Definition to_record (f : fields) : dict :=
  <["title" := PyStr (f_title f)]>
  (<["description" := PyStr (f_body f)]>
  (<["date" := PyStr (f_date f)]>
  (<["rating" := PyStr (f_rating f)]>
  (<["reviewer" := PyStr (f_reviewer f)]> ∅)))).

Definition candidate_key (c : Element) : string :=
  let f := extract_fields c in dedup_key (f_title f) (f_body f).

Definition candidate_record (c : Element) : dict := to_record (extract_fields c).

(** One turn of the loop of lines 71-120 on [(results, seen)]. *)
Definition visit (st : list dict * gset string) (c : Element)
  : list dict * gset string :=
  let '(results, seen) := st in
  let key := candidate_key c in
  if decide (key ∈ seen) then st
  else (results ++ [candidate_record c], {[key]} ∪ seen).

(** The whole script, on the nodes [document.querySelectorAll] returns. *)
Definition run (nodes : list Element) : list dict :=
  fst (fold_left visit (candidates nodes) ([], ∅)).

(** The key of a record of the output, read back from its fields. *)
Definition record_key (r : dict) : string :=
  dedup_key (or_empty (get r "title")) (or_empty (get r "description")).

(** Tests on the key of a record and on the key a candidate yields. *)
Definition has_key (k : string) (r : dict) : bool :=
  bool_decide (record_key r = k).

Definition yields_key (k : string) (c : Element) : bool :=
  bool_decide (candidate_key c = k).

(** What the loop of lines 71-120 maintains, [visited] being the
    candidates handled so far. *)
Record visit_inv (visited : list Element) (st : list dict * gset string) := {
  inv_seen : forall k, k ∈ st.2 <-> is_Some (find (yields_key k) visited);
  inv_first : forall k,
    find (has_key k) st.1 = candidate_record <$> find (yields_key k) visited;
  inv_nodup : NoDup (record_key <$> st.1);
  inv_origin : forall r, r ∈ st.1 -> exists c, c ∈ visited ∧ r = candidate_record c
}.

End Script.

(** ** Python's [datetime] *)

(** A [datetime] value; [utcoffset] is [None] for a naive value and the
    offset to UTC, in seconds, for an aware one. *)
Record datetime := mkDatetime {
  year : Z;
  month : Z;
  day : Z;
  hour : Z;
  minute : Z;
  second : Z;
  microsecond : Z;
  utcoffset : option Z
}.

Module Datetime.

Definition is_leap (y : Z) : bool :=
  (y mod 4 =? 0) && (negb (y mod 100 =? 0) || (y mod 400 =? 0)).

Definition days_before_year (y : Z) : Z :=
  let p := y - 1 in p * 365 + p / 4 - p / 100 + p / 400.

Definition days_before_month (y m : Z) : Z :=
  nth (Z.to_nat (m - 1)) [0; 31; 59; 90; 120; 151; 181; 212; 243; 273; 304; 334] 0
  + (if (2 <? m) && is_leap y then 1 else 0).

Definition days_in_month (y m : Z) : Z :=
  if (m =? 2) && is_leap y then 29
  else nth (Z.to_nat (m - 1)) [31; 28; 31; 30; 31; 30; 31; 31; 30; 31; 30; 31] 0.

Definition toordinal (d : datetime) : Z :=
  days_before_year (year d) + days_before_month (year d) (month d) + day d.

(** Microseconds since the start of day 0 of the calendar, offset ignored. *)
Definition wall_clock (d : datetime) : Z :=
  (((toordinal d * 24 + hour d) * 60 + minute d) * 60 + second d) * 1000000
  + microsecond d.

Definition components (d : datetime) : list Z :=
  [year d; month d; day d; hour d; minute d; second d; microsecond d].

Fixpoint cmp_tuple (a b : list Z) : comparison :=
  match a, b with
  | x :: a', y :: b' =>
      match x ?= y with
      | Eq => cmp_tuple a' b'
      | c => c
      end
  | [], [] => Eq
  | [], _ :: _ => Lt
  | _ :: _, [] => Gt
  end.

(** The comparison behind [<], [<=], [>] and [>=]: values with the same
    offset (two naive ones too) compare by their components; two aware
    values compare as instants; a naive and an aware value do not compare,
    the operator raises [TypeError]. *)
Definition cmp (a b : datetime) : result comparison :=
  if decide (utcoffset a = utcoffset b) then Ok (cmp_tuple (components a) (components b))
  else
    match utcoffset a, utcoffset b with
    | Some oa, Some ob =>
        Ok ((wall_clock a - oa * 1000000) ?= (wall_clock b - ob * 1000000))
    | _, _ => Raise TypeError
    end.

(** [a <= b] *)
Definition le (a b : datetime) : result bool :=
  c ← cmp a b; mret (match c with Gt => false | _ => true end).

(** [a > b] *)
Definition gt (a b : datetime) : result bool :=
  c ← cmp a b; mret (match c with Gt => true | _ => false end).

(** [%Y]: the year in decimal as the C library prints it, on four
    digits from the year 1000 on and without padding below ([year] ranges
    over 1..9999). *)
Definition year_text (y : Z) : string :=
  if y <? 10 then Str.pad 1 y
  else if y <? 100 then Str.pad 2 y
  else if y <? 1000 then Str.pad 3 y
  else Str.pad 4 y.

(** [d.strftime("%Y-%m-%d")] and [d.strftime("%Y%m%d")]. *)
Definition strftime_dashed (d : datetime) : string :=
  year_text (year d) +:+ "-" +:+ Str.pad 2 (month d) +:+ "-" +:+ Str.pad 2 (day d).

Definition strftime_compact (d : datetime) : string :=
  year_text (year d) +:+ Str.pad 2 (month d) +:+ Str.pad 2 (day d).

Definition naive (d : datetime) : Prop := utcoffset d = None.

End Datetime.

(** ** The collaborators *)

(** [dateutil.parser.parse]: a [datetime], or an exception. *)
Class DateParser := {
  dateparser_parse : string -> result datetime
}.

(** The browser as the program uses it.  [goto] gives the page after the
    navigation and the exception it raised, if any.  [document_nodes] is
    what [document.querySelectorAll] of line 58 returns inside
    [page.evaluate], or the exception of the evaluation.  The other four
    are the calls of the pagination step: [query_selector] tells whether
    the page has a load-more or next control (line 157), or raises;
    [click] is the click on that control (line 160), [scroll_to_bottom]
    the evaluation of [window.scrollBy] (lines 164 and 168) and
    [wait_for_timeout] the wait (lines 161, 165, 169 and 171), each giving
    the page afterwards and the exception it raised, if any.
    [PWTimeoutError] is the timeout of Playwright. *)
Class Browser := {
  Page : Type;
  launch : result Page;
  goto : string -> Page -> Page * option exn;
  document_nodes : Page -> result (list Element);
  query_selector : Page -> result bool;
  click : Page -> Page * option exn;
  scroll_to_bottom : Page -> Page * option exn;
  wait_for_timeout : Z -> Page -> Page * option exn
}.

(** Lines 160-161: the click, then the wait. *)
Definition click_and_wait `{Browser} (wait_ms : Z) (page : Page)
  : Page * option exn :=
  match click page with
  | (p, None) => wait_for_timeout wait_ms p
  | (p, Some e) => (p, Some e)
  end.

(** Lines 164-165 and 168-169: the scroll, then the wait. *)
Definition scroll_and_wait `{Browser} (wait_ms : Z) (page : Page)
  : Page * option exn :=
  match scroll_to_bottom page with
  | (p, None) => wait_for_timeout wait_ms p
  | (p, Some e) => (p, Some e)
  end.

(** Lines 157-169, the body of the outer [try]: any exception of the
    click or of its wait is caught and answered by the scroll; the
    exceptions of [query_selector] and of the scroll and its wait go on. *)
Definition paginate_try `{Browser} (wait_ms : Z) (page : Page)
  : Page * option exn :=
  match query_selector page with
  | Raise e => (page, Some e)
  | Ok true =>
      match click_and_wait wait_ms page with
      | (p, None) => (p, None)
      | (p, Some _) => scroll_and_wait wait_ms p
      end
  | Ok false => scroll_and_wait wait_ms page
  end.

(** Lines 156-171, the pagination step: a timeout is caught and answered
    by one more wait; any other exception leaves the step.  The page
    afterwards and the exception let through, if any. *)
Definition paginate `{Browser} (wait_ms : Z) (page : Page) : Page * option exn :=
  match paginate_try wait_ms page with
  | (p, Some PWTimeoutError) => wait_for_timeout wait_ms p
  | (p, x) => (p, x)
  end.

(** ** Helpers (lines 30-40) *)

Definition parse_date_safe `{DateParser} (date_str : string) : option datetime :=
  catch_none (dateparser_parse date_str).

(** [start <= dt <= end]: the second comparison runs only when the first
    one holds. *)
Definition within_range (dt start end_ : datetime) : result bool :=
  b ← Datetime.le start dt;
  if b : bool then Datetime.le dt end_ else mret false.

Definition iso (d : datetime) : string := Datetime.strftime_dashed d.

(** ** The extractor and the collector (lines 52-178) *)

Definition extract_reviews_from_dom `{Browser} (page : Page) : list dict :=
  match document_nodes page with
  | Ok nodes => Script.run nodes
  | Raise _ => []
  end.

(** [v + s] for a string [s]: a [TypeError] when [v] is [None]. *)
Definition py_concat (v : pyval) (s : string) : result string :=
  match v with
  | PyStr a => Ok (a +:+ s)
  | PyNone => Raise TypeError
  end.

(** [v[:n]]: a [TypeError] when [v] is [None]. *)
Definition py_prefix (v : pyval) (n : nat) : result string :=
  match v with
  | PyStr a => Ok (Str.take n a)
  | PyNone => Raise TypeError
  end.

(** Line 149. *)
Definition collect_key (r : dict) : result string :=
  t ← py_concat (get_or r "title" (PyStr "")) "|";
  mret (t +:+ Str.take 120 (or_empty (get_or r "description" (PyStr "")))).

(** The accumulators of the collector, with the counter of one round. *)
Record Accum := mkAccum {
  collected : list dict;
  seen_keys : gset string;
  new_count : nat
}.

(** Lines 148-153, one record. *)
Definition merge_one (a : Accum) (r : dict) : result Accum :=
  key ← collect_key r;
  if decide (key ∈ seen_keys a) then mret a
  else mret (mkAccum (collected a ++ [r]) ({[key]} ∪ seen_keys a) (S (new_count a))).

Fixpoint merge_found (a : Accum) (found : list dict) : result Accum :=
  match found with
  | [] => mret a
  | r :: rest => a' ← merge_one a r; merge_found a' rest
  end.

(** What one iteration looked like after its merge and its pagination
    step: the counters and the list as line 173 reads them, and the
    exception the pagination step let through, if any. *)
Record Round := mkRound {
  r_last_len : nat;
  r_new_count : nat;
  r_collected : list dict;
  r_raised : option exn
}.

(** The loop of lines 144-176 with [n] iterations left: the iterations
    run, in order, and the value returned (or the exception).  An
    exception of the pagination step ends the loop and the function. *)
Fixpoint scroll_loop `{Browser} (n : nat) (wait_ms : Z) (page : Page)
    (collected0 : list dict) (seen0 : gset string) (last_len : nat)
  : list Round * result (list dict) :=
  match n with
  | O => ([], Ok collected0)
  | S n' =>
      let found := extract_reviews_from_dom page in
      match merge_found (mkAccum collected0 seen0 0) found with
      | Raise e => ([], Raise e)
      | Ok a =>
          let this := mkRound last_len (new_count a) (collected a) in
          match paginate wait_ms page with
          | (_, Some e) => ([this (Some e)], Raise e)
          | (page', None) =>
              if (length (collected a) =? last_len)%nat && (new_count a =? 0)%nat
              then ([this None], Ok (collected a))
              else
                let '(rounds, res) :=
                  scroll_loop n' wait_ms page' (collected a) (seen_keys a)
                              (length (collected a)) in
                (this None :: rounds, res)
          end
      end
  end.

(** Lines 140-178.  [max_scrolls] is the number of iterations of
    [range(max_scrolls)], a natural number. *)
Definition scroll_rounds `{Browser} (page : Page) (max_scrolls : nat) (wait_ms : Z)
  : list Round * result (list dict) :=
  scroll_loop max_scrolls wait_ms page [] ∅ 0.

Definition scroll_and_collect `{Browser} (page : Page) (max_scrolls : nat)
    (wait_ms : Z) : result (list dict) :=
  snd (scroll_rounds page max_scrolls wait_ms).

(** The shape of a run of the loop entered with the list [before]: each
    iteration enters with [last_len] the length of the list and extends
    the list by the records it counted as new; it is the last one when its
    pagination step raised, and the exception is then the outcome, or when
    it counted no new record; the value returned is the list of the last
    iteration. *)
Fixpoint run_shape (before : list dict) (rounds : list Round)
    (res : result (list dict)) : Prop :=
  match rounds with
  | [] => res = Ok before
  | rd :: rest =>
      r_last_len rd = length before ∧
      before `prefix_of` r_collected rd ∧
      length (r_collected rd) = (length before + r_new_count rd)%nat ∧
      match r_raised rd with
      | Some e => rest = [] ∧ res = Raise e
      | None =>
          (r_new_count rd = 0%nat -> rest = []) ∧
          run_shape (r_collected rd) rest res
      end
  end.

(** The outcome of an iteration that is the last one. *)
Definition round_outcome (rd : Round) : result (list dict) :=
  match r_raised rd with
  | None => Ok (r_collected rd)
  | Some e => Raise e
  end.

(** The defaults of the signature, [max_scrolls=40] and [wait_ms=800]. *)
Definition scroll_and_collect_default `{Browser} (page : Page) : result (list dict) :=
  scroll_and_collect page 40 800.

(** ** The adapters (lines 180-303) *)

(** The dictionary literal of lines 210-217, 261-268 and 290-297. *)
Definition r_copy (r : dict) (date source : string) : dict :=
  <["title" := PyStr (or_empty (get r "title"))]>
  (<["description" := PyStr (or_empty (get r "description"))]>
  (<["date" := PyStr date]>
  (<["rating" := PyStr (or_empty (get r "rating"))]>
  (<["reviewer" := PyStr (or_empty (get r "reviewer"))]>
  (<["source" := PyStr source]> ∅))))).

(** The names of the fields of an output record. *)
Definition record_fields : gset string :=
  {[ "title"; "description"; "date"; "rating"; "reviewer"; "source" ]}.

(** A dictionary with exactly the six fields, each holding a string. *)
Definition six_string_fields (r : dict) : Prop :=
  dom r = record_fields ∧
  forall k, k ∈ record_fields -> exists s, r !! k = Some (PyStr s).

(** The four fields an adapter copies from the collected record [raw],
    an absent or null value becoming the empty string. *)
Definition copied_from (raw r : dict) : Prop :=
  forall k, k ∈ ["title"; "description"; "rating"; "reviewer"] ->
            r !! k = Some (PyStr (or_empty (get raw k))).

(** A loop that appends to a list what its body yields, and stops at the
    first exception. *)
Fixpoint for_append {A B} (body : A -> result (option B)) (l : list A)
  : result (list B) :=
  match l with
  | [] => mret []
  | x :: rest =>
      y ← body x;
      ys ← for_append body rest;
      mret (match y with Some b => b :: ys | None => ys end)
  end.

(** Line 199: the date of a G2 record, from its date field or else from
    the first 50 characters of its description. *)
Definition g2_resolve_date `{DateParser} (r : dict) : result (option datetime) :=
  let date_candidate := or_empty (get r "date") in
  match parse_date_safe date_candidate with
  | Some d => mret (Some d)
  | None =>
      s ← py_prefix (get_or r "description" (PyStr "")) 50;
      mret (parse_date_safe s)
  end.

(** Lines 192-218, one record. *)
Definition g2_normalize_one `{DateParser} (start end_ : datetime) (r : dict)
  : result (option dict) :=
  r_parsed_date ← g2_resolve_date r;
  keep ← match r_parsed_date with
         | None => mret true
         | Some d => within_range d start end_
         end;
  if keep : bool then
    mret (Some (r_copy r
                  (match r_parsed_date with
                   | Some d => iso d
                   | None => or_empty (get r "date")
                   end) "G2"))
  else mret None.

(** Lines 222-231, one record. *)
Definition g2_final_one `{DateParser} (start end_ : datetime) (r : dict)
  : result (option dict) :=
  if truthy (get r "date") then
    match parse_date_safe (or_empty (get r "date")) with
    | Some p =>
        b ← within_range p start end_;
        mret (if b : bool then Some r else None)
    | None => mret (Some r)
    end
  else mret (Some r).

(** Lines 190-232. *)
Definition g2_filter `{DateParser} (start end_ : datetime) (all_reviews : list dict)
  : result (list dict) :=
  normalized ← for_append (g2_normalize_one start end_) all_reviews;
  for_append (g2_final_one start end_) normalized.

(** Lines 259-275 and 288-302, one record. *)
Definition dated_normalize_one `{DateParser} (source : string)
    (start end_ : datetime) (r : dict) : result (option dict) :=
  let dt := parse_date_safe (or_empty (get r "date")) in
  let copy := r_copy r (match dt with
                        | Some d => iso d
                        | None => or_empty (get r "date")
                        end) source in
  match dt with
  | Some d =>
      b ← within_range d start end_;
      mret (if b : bool then Some copy else None)
  | None => mret (Some copy)
  end.

Definition capterra_filter `{DateParser} (start end_ : datetime)
    (all_reviews : list dict) : result (list dict) :=
  for_append (dated_normalize_one "Capterra" start end_) all_reviews.

Definition trustradius_filter `{DateParser} (start end_ : datetime)
    (all_reviews : list dict) : result (list dict) :=
  for_append (dated_normalize_one "TrustRadius" start end_) all_reviews.

(** The policy of the range filter in the words of the specification,
    for dates that compare by their components: a record whose date does
    not parse is kept, one whose date parses is kept exactly when the date
    lies between [start] and [end_], bounds included. *)
Definition leb_components (a b : datetime) : bool :=
  match Datetime.cmp_tuple (Datetime.components a) (Datetime.components b) with
  | Gt => false
  | _ => true
  end.

Definition dated_policy `{DateParser} (source : string) (start end_ : datetime)
    (r : dict) : option dict :=
  match parse_date_safe (or_empty (get r "date")) with
  | None => Some (r_copy r (or_empty (get r "date")) source)
  | Some d =>
      if leb_components start d && leb_components d end_
      then Some (r_copy r (iso d) source)
      else None
  end.

(** [page.goto] inside [try: ... except Exception: raise RuntimeError]. *)
Definition goto_or_fail `{Browser} (url : string) (page : Page) : result Page :=
  match goto url page with
  | (page', None) => Ok page'
  | (_, Some _) => Raise RuntimeError
  end.

Definition scrape_g2 `{Browser} `{DateParser} (page : Page) (company_slug : string)
    (start end_ : datetime) : result (list dict) :=
  let url := "https://www.g2.com/products/" +:+ company_slug +:+ "/reviews" in
  page1 ← goto_or_fail url page;
  all_reviews ← scroll_and_collect_default page1;
  g2_filter start end_ all_reviews.

(** Lines 243-254: the first variant that opens. *)
Fixpoint try_variants `{Browser} (urls : list string) (page : Page) : result Page :=
  match urls with
  | [] => Raise RuntimeError
  | u :: rest =>
      match goto u page with
      | (page', None) => Ok page'
      | (page', Some _) => try_variants rest page'
      end
  end.

Definition scrape_capterra `{Browser} `{DateParser} (page : Page)
    (company_slug : string) (start end_ : datetime) : result (list dict) :=
  let url_variants :=
    ["https://www.capterra.com/p/" +:+ company_slug +:+ "/reviews/";
     "https://www.capterra.com/search?q=" +:+ company_slug;
     "https://www.capterra.com/p/" +:+ company_slug +:+ "/"] in
  page1 ← try_variants url_variants page;
  all_reviews ← scroll_and_collect_default page1;
  capterra_filter start end_ all_reviews.

Definition scrape_trustradius `{Browser} `{DateParser} (page : Page)
    (company_slug : string) (start end_ : datetime) : result (list dict) :=
  let url := "https://www.trustradius.com/products/" +:+ company_slug +:+ "/reviews" in
  page1 ← goto_or_fail url page;
  all_reviews ← scroll_and_collect_default page1;
  trustradius_filter start end_ all_reviews.

(** ** The file system *)

Inductive content :=
  | Bytes (s : string)
  | JsonDump (reviews : list dict).

Inductive entry :=
  | Dir
  | File (c : content).

#[global] Instance content_eq_dec : EqDecision content.
Proof. solve_decision. Defined.
#[global] Instance entry_eq_dec : EqDecision entry.
Proof. solve_decision. Defined.

(** The tree of a disk, by resolved path (the names from the root, which
    is a directory), and the working directory of the process.  There are
    no symbolic links and no permissions. *)
Record Disk := mkDisk {
  cwd : list string;
  tree : gmap (list string) entry
}.

(** A [pathlib] path: whether it is anchored at the root, and its parts;
    [pathlib] drops empty parts and [.] and keeps [..]. *)
Record PurePath := mkPath {
  absolute : bool;
  parts : list string
}.

Module Os.

Definition Path (s : string) : PurePath :=
  {| absolute := Str.starts_with ["/"%char] (Str.chars s);
     parts := filter (fun c => c ≠ "" ∧ c ≠ ".") (Str.split "/"%char s) |}.

(** [p / name] *)
Definition joinpath (p : PurePath) (name : string) : PurePath :=
  let q := Path name in
  if absolute q then q else {| absolute := absolute p; parts := parts p ++ parts q |}.

(** [p.parent]; the parent of a path without parts is the path itself. *)
Definition parent (p : PurePath) : PurePath :=
  {| absolute := absolute p; parts := removelast (parts p) |}.

Definition entry_at (d : Disk) (p : list string) : option entry :=
  match p with
  | [] => Some Dir
  | _ => tree d !! p
  end.

Definition start_dir (d : Disk) (p : PurePath) : list string :=
  if absolute p then [] else cwd d.

(** Resolution of the names [names] from the directory [cur]: every name
    must lead to a directory. *)
Fixpoint walk (d : Disk) (cur : list string) (names : list string)
  : result (list string) :=
  match names with
  | [] => Ok cur
  | c :: rest =>
      if decide (c = "..") then walk d (removelast cur) rest
      else
        match entry_at d (cur ++ [c]) with
        | Some Dir => walk d (cur ++ [c]) rest
        | Some (File _) => Raise NotADirectoryError
        | None => Raise FileNotFoundError
        end
  end.

(** [p.is_dir()] *)
Definition is_dir (d : Disk) (p : PurePath) : bool :=
  is_ok (walk d (start_dir d p) (parts p)).

(** [os.mkdir(p)] *)
Definition mkdir (d : Disk) (p : PurePath) : result Disk :=
  match parts p with
  | [] => Raise FileExistsError
  | _ =>
      dir ← walk d (start_dir d p) (removelast (parts p));
      let name := List.last (parts p) "" in
      if decide (name = "..") then Raise FileExistsError
      else
        match entry_at d (dir ++ [name]) with
        | Some _ => Raise FileExistsError
        | None => Ok (mkDisk (cwd d) (<[dir ++ [name] := Dir]> (tree d)))
        end
  end.

(** [p.mkdir(parents=False, exist_ok=True)]: the disk afterwards and the
    exception raised, if any. *)
Definition mkdir_exist_ok (d : Disk) (p : PurePath) : Disk * option exn :=
  match mkdir d p with
  | Ok d' => (d', None)
  | Raise FileNotFoundError => (d, Some FileNotFoundError)
  | Raise e => if is_dir d p then (d, None) else (d, Some e)
  end.

(** [p.mkdir(parents=True, exist_ok=True)], for the path whose parts are
    [rev rparts]: on [FileNotFoundError] the parent is made first, then
    the directory itself. *)
Fixpoint mkdir_parents (d : Disk) (anchored : bool) (rparts : list string)
  : Disk * option exn :=
  let p := mkPath anchored (rev rparts) in
  match mkdir d p with
  | Ok d' => (d', None)
  | Raise FileNotFoundError =>
      match rparts with
      | [] => (d, Some FileNotFoundError)
      | _ :: rparent =>
          match mkdir_parents d anchored rparent with
          | (d1, None) => mkdir_exist_ok d1 p
          | (d1, Some e) => (d1, Some e)
          end
      end
  | Raise e => if is_dir d p then (d, None) else (d, Some e)
  end.

Definition Path_mkdir (d : Disk) (p : PurePath) : Disk * option exn :=
  mkdir_parents d (absolute p) (rev (parts p)).

(** [open(p, "w")] followed by the writing of [c]. *)
Definition write_file (d : Disk) (p : PurePath) (c : content) : result Disk :=
  match parts p with
  | [] => Raise IsADirectoryError
  | _ =>
      dir ← walk d (start_dir d p) (removelast (parts p));
      let name := List.last (parts p) "" in
      if decide (name = "..") then Raise IsADirectoryError
      else
        match entry_at d (dir ++ [name]) with
        | Some Dir => Raise IsADirectoryError
        | _ => Ok (mkDisk (cwd d) (<[dir ++ [name] := File c]> (tree d)))
        end
  end.

(** What the path [p] leads to, if anything. *)
Definition lookup (d : Disk) (p : PurePath) : option entry :=
  match parts p with
  | [] => Some Dir
  | _ =>
      match walk d (start_dir d p) (removelast (parts p)) with
      | Ok dir =>
          let name := List.last (parts p) "" in
          if decide (name = "..") then Some Dir else entry_at d (dir ++ [name])
      | Raise _ => None
      end
  end.

(** A disk that holds directories only. *)
Definition no_files (d : Disk) : Prop :=
  forall q c, tree d !! q ≠ Some (File c).

(** The regular files of a disk. *)
Definition files (d : Disk) : gmap (list string) entry :=
  filter (fun kv => kv.2 ≠ Dir) (tree d).

End Os.

(** ** The orchestrator (lines 308-346) *)

(** Lines 323-331. *)
Definition dispatch `{Browser} `{DateParser} (page : Page) (company : string)
    (start end_ : datetime) (source_lower : string) : result (list dict) :=
  if decide (source_lower = "g2") then scrape_g2 page company start end_
  else if decide (source_lower = "capterra") then
    scrape_capterra page company start end_
  else if decide (source_lower ∈ ["trustradius"; "trust radius"; "trust-radius"])
  then scrape_trustradius page company start end_
  else Raise ValueError.

Definition output_name (company source_lower : string) (start end_ : datetime)
  : string :=
  company +:+ "_" +:+ source_lower +:+ "_" +:+ Datetime.strftime_compact start
  +:+ "_to_" +:+ Datetime.strftime_compact end_ +:+ ".json".

(** The disk afterwards, and what is returned or raised. *)
Definition run_scraper `{Browser} `{DateParser}
    (company start_date end_date source outdir : string) (d : Disk)
  : Disk * result (PurePath * list dict) :=
  match (start ← dateparser_parse start_date;
         end_ ← dateparser_parse end_date;
         mret (start, end_)) with
  | Raise _ => (d, Raise ValueError)
  | Ok (start, end_) =>
      match Datetime.gt start end_ with
      | Raise e => (d, Raise e)
      | Ok true => (d, Raise ValueError)
      | Ok false =>
          let source_lower := Str.lower source in
          match (page ← launch; dispatch page company start end_ source_lower) with
          | Raise e => (d, Raise e)
          | Ok reviews =>
              let outdir_p := Os.Path outdir in
              match Os.Path_mkdir d outdir_p with
              | (d1, Some e) => (d1, Raise e)
              | (d1, None) =>
                  let fname := output_name company source_lower start end_ in
                  let outpath := Os.joinpath outdir_p fname in
                  match Os.write_file d1 outpath (JsonDump reviews) with
                  | Raise e => (d1, Raise e)
                  | Ok d2 => (d2, Ok (outpath, reviews))
                  end
              end
          end
      end
  end.

(** ** The command line (lines 351-364) *)

(** What [argparse] reads of the command line: the value given to each
    option, if any, and whether [-h] or [--help] is read.  The arguments
    are handled from left to right and the first one that ends the process
    is the last one read: nothing is read after a rejected value of
    [--source], nor after a help flag.  So [--help --source foo] is read
    as the help flag alone, and [--source foo --help] as the value [foo]
    alone; [read_args] below gives what is read of a list of options. *)
Record CommandLine := mkCommandLine {
  opt_company : option string;
  opt_start : option string;
  opt_end : option string;
  opt_source : option string;
  opt_outdir : option string;
  opt_help : bool
}.

Record Namespace := mkNamespace {
  arg_company : string;
  arg_start : string;
  arg_end : string;
  arg_source : string;
  arg_outdir : string
}.

Definition source_choices : list string := ["g2"; "capterra"; "trustradius"].

(** The check of [--source] against its [choices], made when the value
    is read. *)
Definition source_rejected (cl : CommandLine) : bool :=
  match opt_source cl with
  | Some src => bool_decide (src ∉ source_choices)
  | None => false
  end.

(** [parser.parse_args()].  A value of [--source] that is not one of its
    [choices] ends the process with status 2 where it is read.  A help
    flag prints the help and ends the process with status 0.  At the end
    of the command line the four required options must have been given,
    or else the process ends with status 2. *)
Definition parse_args (cl : CommandLine) : Namespace + Z :=
  if source_rejected cl then inr 2
  else if opt_help cl then inr 0
  else
    match opt_company cl, opt_start cl, opt_end cl, opt_source cl with
    | Some c, Some s, Some e, Some src =>
        inl (mkNamespace c s e src (default "." (opt_outdir cl)))
    | _, _, _, _ => inr 2
    end.

(** The exit status of the process and the disk it leaves. *)
Definition main `{Browser} `{DateParser} (cl : CommandLine) (d : Disk) : Z * Disk :=
  match parse_args cl with
  | inr status => (status, d)
  | inl args =>
      match run_scraper (arg_company args) (arg_start args) (arg_end args)
                        (arg_source args) (arg_outdir args) d with
      | (d', Ok _) => (0, d')
      | (d', Raise _) => (1, d')
      end
  end.

(** The options of a command line, in the order they are given. *)
Inductive Arg :=
  | ArgCompany (v : string)
  | ArgStart (v : string)
  | ArgEnd (v : string)
  | ArgSource (v : string)
  | ArgOutdir (v : string)
  | ArgHelp.

(** The options at which [argparse] ends the process when it reads them:
    a help flag, and a value of [--source] outside its [choices]. *)
Definition ends_parsing (a : Arg) : bool :=
  match a with
  | ArgHelp => true
  | ArgSource v => bool_decide (v ∉ source_choices)
  | _ => false
  end.

(** One option read: its value replaces the one read before. *)
Definition store (a : Arg) (cl : CommandLine) : CommandLine :=
  match a with
  | ArgCompany v =>
      mkCommandLine (Some v) (opt_start cl) (opt_end cl) (opt_source cl)
                    (opt_outdir cl) (opt_help cl)
  | ArgStart v =>
      mkCommandLine (opt_company cl) (Some v) (opt_end cl) (opt_source cl)
                    (opt_outdir cl) (opt_help cl)
  | ArgEnd v =>
      mkCommandLine (opt_company cl) (opt_start cl) (Some v) (opt_source cl)
                    (opt_outdir cl) (opt_help cl)
  | ArgSource v =>
      mkCommandLine (opt_company cl) (opt_start cl) (opt_end cl) (Some v)
                    (opt_outdir cl) (opt_help cl)
  | ArgOutdir v =>
      mkCommandLine (opt_company cl) (opt_start cl) (opt_end cl) (opt_source cl)
                    (Some v) (opt_help cl)
  | ArgHelp =>
      mkCommandLine (opt_company cl) (opt_start cl) (opt_end cl) (opt_source cl)
                    (opt_outdir cl) true
  end.

(** What is read of a list of options, from left to right, up to the
    first one that ends the process. *)
Fixpoint read_args (argv : list Arg) (cl : CommandLine) : CommandLine :=
  match argv with
  | [] => cl
  | a :: rest =>
      if ends_parsing a then store a cl else read_args rest (store a cl)
  end.

Definition no_option : CommandLine :=
  mkCommandLine None None None None None false.

(** ** Instances to run the program on *)

Module Sample.

(** A browser that shows a fixed succession of documents: a page is the
    list of the documents still to come, the first one being shown. *)
Definition browser (reachable : string -> bool) (site : list (list Element))
  : Browser :=
  {| Page := list (list Element);
     launch := Ok [];
     goto := fun url page =>
       if reachable url then (site, None) else (page, Some PlaywrightError);
     document_nodes := fun page => Ok (default [] (head page));
     query_selector := fun _ => Ok false;
     click := fun page => (page, None);
     scroll_to_bottom := fun page => (tail page, None);
     wait_for_timeout := fun _ page => (page, None) |}.

(** A browser whose every pagination brings a card never seen before:
    the page is the number of paginations so far. *)
Definition endless : Browser :=
  {| Page := nat;
     launch := Ok 0%nat;
     goto := fun _ page => (page, None);
     document_nodes := fun page =>
       Ok [mkElement
             ("Review number " +:+ Str.pad 4 (Z.of_nat page) +:+ String "010"
              "Five stars, the best review tool we have used in years")
             ∅ (fun _ => None)];
     query_selector := fun _ => Ok true;
     click := fun page => (S page, None);
     scroll_to_bottom := fun page => (page, None);
     wait_for_timeout := fun _ page => (page, None) |}.

(** A browser whose document has no review card at all. *)
Definition barren : Browser := browser (fun _ => true) [].

(** A browser whose page has been closed: every call on the page raises
    an error of Playwright, and not a timeout. *)
Definition crashing : Browser :=
  {| Page := unit;
     launch := Ok tt;
     goto := fun _ page => (page, Some PlaywrightError);
     document_nodes := fun _ => Raise PlaywrightError;
     query_selector := fun _ => Raise PlaywrightError;
     click := fun page => (page, Some PlaywrightError);
     scroll_to_bottom := fun page => (page, Some PlaywrightError);
     wait_for_timeout := fun _ page => (page, Some PlaywrightError) |}.

(** A browser whose control cannot be clicked and whose waits time out
    once: the scroll stands in for the click, the timeout is waited out. *)
Definition sluggish (site : list (list Element)) : Browser :=
  {| Page := list (list Element) * bool;
     launch := Ok ([], false);
     goto := fun _ _ => ((site, false), None);
     document_nodes := fun page => Ok (default [] (head page.1));
     query_selector := fun _ => Ok true;
     click := fun page => (page, Some PlaywrightError);
     scroll_to_bottom := fun page => ((tail page.1, false), None);
     wait_for_timeout := fun _ page =>
       if page.2 then (page, None) else ((page.1, true), Some PWTimeoutError) |}.

Definition number (l : list ascii) : option Z :=
  if forallb Str.is_digit l
  then Some (fold_left (fun acc c => acc * 10 + (Z.of_N (Str.code c) - 48)) l 0)
  else None.

Definition valid_date (y m d : Z) : bool :=
  (1 <=? y) && (y <=? 9999) && (1 <=? m) && (m <=? 12) && (1 <=? d) &&
  (d <=? Datetime.days_in_month y m).

(** The dates [YYYY-MM-DD] and the UTC instants [YYYY-MM-DDTHH:MM:SSZ], as
    [dateutil] reads them: a naive midnight for the first form, an aware
    value of offset zero for the second.  Anything else is refused. *)
Definition parse_chars (l : list ascii) : result datetime :=
  match l with
  | y1 :: y2 :: y3 :: y4 :: "-"%char :: m1 :: m2 :: "-"%char :: d1 :: d2 :: rest =>
      match number [y1; y2; y3; y4], number [m1; m2], number [d1; d2] with
      | Some y, Some m, Some d =>
          if valid_date y m d then
            match rest with
            | [] => Ok (mkDatetime y m d 0 0 0 0 None)
            | ["T"%char; h1; h2; ":"%char; i1; i2; ":"%char; s1; s2; "Z"%char] =>
                match number [h1; h2], number [i1; i2], number [s1; s2] with
                | Some h, Some i, Some s =>
                    if (h <? 24) && (i <? 60) && (s <? 60)
                    then Ok (mkDatetime y m d h i s 0 (Some 0))
                    else Raise ValueError
                | _, _, _ => Raise ParserError
                end
            | _ => Raise ParserError
            end
          else Raise ValueError
      | _, _, _ => Raise ParserError
      end
  | _ => Raise ParserError
  end.

Definition iso8601 : DateParser :=
  {| dateparser_parse := fun s => parse_chars (Str.chars s) |}.

Definition leaf (text : string) : Element := mkElement text ∅ (fun _ => None).

(** A review card: a heading, a paragraph and a [time] element carrying
    a [datetime] attribute. *)
Definition card (title body date : string) : Element :=
  mkElement (title +:+ String "010" body)
    ∅
    (fun sel =>
       if decide (sel = "h1, h2, h3, .review-title, [class*=title]") then Some (leaf title)
       else if decide (sel =
         ".review-text, .review-body, [class*=comment], [class*=content], p")
       then Some (leaf body)
       else if decide (sel = "time")
       then Some (mkElement "" {["datetime" := date]} (fun _ => None))
       else None).

(** A card whose [time] element carries an instant in UTC. *)
Definition zoned_card : Element :=
  card "Zoned" "Five stars, the best review tool we have used in years"
       "2024-03-15T10:00:00Z".

(** A collected record without title and with a null description. *)
Definition sparse_record : dict :=
  {[ "description" := PyNone; "date" := PyStr "2024-03-15" ]}.

Definition foo_command : CommandLine :=
  mkCommandLine (Some "zoho-crm") (Some "2024-01-01") (Some "2024-06-30")
                (Some "foo") None false.

Definition g2_command : CommandLine :=
  mkCommandLine (Some "zoho-crm") (Some "2024-01-01") (Some "2024-06-30")
                (Some "g2") (Some "out/2024/reviews") false.

(** The command [--help]. *)
Definition help_command : CommandLine :=
  mkCommandLine None None None None None true.

Definition jan_1_2024 : datetime := mkDatetime 2024 1 1 0 0 0 0 None.
Definition jun_30_2024 : datetime := mkDatetime 2024 6 30 0 0 0 0 None.

Definition empty_disk : Disk := mkDisk [] ∅.

Definition praise : string :=
  "Five stars, the best review tool we have used in years".

(** 49 characters, with the word review in them. *)
Definition short_text : string :=
  "A short review that has forty-nine characters ok.".

Definition first_card : Element := card "Great" praise "2024-03-15".
(** The same title and body as [first_card], another date. *)
Definition twin_card : Element := card "Great" praise "2023-12-31".
Definition other_card : Element := card "Solid" praise "".
Definition short_card : Element := leaf short_text.

Definition growing_site : list (list Element) :=
  [[first_card]; [first_card; other_card]; [first_card; other_card]].

End Sample.

(** ** Notions used to state further properties *)

(** The page after [i] pagination steps. *)
Definition page_after `{Browser} (wait_ms : Z) (i : nat) (page : Page) : Page :=
  Nat.iter i (fun p => (paginate wait_ms p).1) page.

(** What the collector maintains between its list and its set of keys:
    the set holds the keys of the list, no two records of the list have
    the same key, and the key of each of them is defined. *)
Record acc_inv (c : list dict) (s : gset string) : Prop := {
  keys_seen : forall k, k ∈ s <-> exists r, r ∈ c ∧ collect_key r = Ok k;
  keys_nodup : NoDup (collect_key <$> c);
  keys_ok : forall r, r ∈ c -> exists k, collect_key r = Ok k
}.

(** The names of the fields of a record of the extractor. *)
Definition extracted_fields : gset string :=
  {[ "title"; "description"; "date"; "rating"; "reviewer" ]}.

(** A dictionary with exactly the five fields of the extractor, each
    holding a string. *)
Definition five_string_fields (r : dict) : Prop :=
  dom r = extracted_fields ∧
  forall k, k ∈ extracted_fields -> exists s, r !! k = Some (PyStr s).

(** The date a G2 record resolves to, when its description is a string
    or is absent. *)
Definition g2_resolved `{DateParser} (r : dict) : option datetime :=
  match parse_date_safe (or_empty (get r "date")) with
  | Some d => Some d
  | None =>
      parse_date_safe
        (Str.take 50 (or_empty (get_or r "description" (PyStr ""))))
  end.

(** What the two passes of the G2 adapter do to one record, for dates
    that compare by their components.  A record that resolves to no date
    is kept under its raw date.  A record that resolves to [d] is kept,
    under [iso d], when [d] lies in the range and the date read back from
    [iso d], if it parses, lies in the range as well. *)
Definition g2_policy `{DateParser} (start end_ : datetime) (r : dict) : option dict :=
  match g2_resolved r with
  | None => Some (r_copy r (or_empty (get r "date")) "G2")
  | Some d =>
      if leb_components start d && leb_components d end_ then
        match parse_date_safe (iso d) with
        | Some p =>
            if leb_components start p && leb_components p end_
            then Some (r_copy r (iso d) "G2")
            else None
        | None => Some (r_copy r (iso d) "G2")
        end
      else None
  end.

Module LocalTime.

(** The dates [YYYY-MM-DD] and the local date-times
    [YYYY-MM-DDTHH:MM:SS], as [dateutil] reads them: naive values. *)
Definition parse_chars (l : list ascii) : result datetime :=
  match l with
  | y1 :: y2 :: y3 :: y4 :: "-"%char :: m1 :: m2 :: "-"%char :: d1 :: d2 :: rest =>
      match Sample.number [y1; y2; y3; y4], Sample.number [m1; m2],
            Sample.number [d1; d2] with
      | Some y, Some m, Some d =>
          if Sample.valid_date y m d then
            match rest with
            | [] => Ok (mkDatetime y m d 0 0 0 0 None)
            | ["T"%char; h1; h2; ":"%char; i1; i2; ":"%char; s1; s2] =>
                match Sample.number [h1; h2], Sample.number [i1; i2],
                      Sample.number [s1; s2] with
                | Some h, Some i, Some s =>
                    if (h <? 24) && (i <? 60) && (s <? 60)
                    then Ok (mkDatetime y m d h i s 0 None)
                    else Raise ValueError
                | _, _, _ => Raise ParserError
                end
            | _ => Raise ParserError
            end
          else Raise ValueError
      | _, _, _ => Raise ParserError
      end
  | _ => Raise ParserError
  end.

(** The parser; its values carry no offset. *)
Definition parser : DateParser :=
  {| dateparser_parse := fun s =>
       d ← parse_chars (Str.chars s);
       mret (mkDatetime (year d) (month d) (day d) (hour d) (minute d)
                        (second d) (microsecond d) None) |}.

(** Noon of the first of January 2024. *)
Definition jan_1_noon : datetime := mkDatetime 2024 1 1 12 0 0 0 None.

(** A collected record dated in the afternoon of that day. *)
Definition afternoon_record : dict :=
  {[ "title" := PyStr "Solid"; "description" := PyStr "It works";
     "date" := PyStr "2024-01-01T15:00:00" ]}.

(** A collected record whose date is a relative phrase. *)
Definition undated_record : dict :=
  {[ "title" := PyStr "Fine"; "description" := PyStr "It works too";
     "date" := PyStr "3 months ago" ]}.

(** A collected record with a null title. *)
Definition untitled_record : dict :=
  {[ "title" := PyNone; "description" := PyStr "It works" ]}.

(** A collected record with a null description and no date. *)
Definition undescribed_record : dict :=
  {[ "title" := PyStr "Fine"; "description" := PyNone ]}.

End LocalTime.


(** The character of the last decimal digit of [z]. *)
Definition digit_char (z : Z) : ascii := ascii_of_N (48 + Z.to_N (z mod 10)).

(** The non-empty trimmed lines of the text of a candidate, as the
    fallback of lines 87-93 computes them. *)
Definition fallback_lines (c : Element) : list string :=
  filter (fun s => Str.non_empty s = true)
         (map Str.trim (Str.split "010"%char (Str.trim (innerText c)))).

(** A string without line feed. *)
Definition newline_free (s : string) : Prop := "010"%char ∉ Str.chars s.

(** A candidate without any matching descendant, whose text has a
    heading line and two lines of body. *)
Definition plain_card : Element :=
  Sample.leaf (String.append "Great tool"
    (String "010" (String.append "Five stars, the best review tool we have used"
      (String "010" "in many years of work"))))%string.

(** * Properties *)

(** ** General facts on lists and on the error monad *)

Lemma find_app_first {A} (f : A -> bool) (l1 l2 : list A) :
  find f (l1 ++ l2) =
  match find f l1 with
  | Some x => Some x
  | None => find f l2
  end.
Proof.
  induction l1 as [|x l1 IH]; simpl; [done|].
  destruct (f x); [done | apply IH].
Qed.

Lemma find_some_elem {A} (f : A -> bool) (l : list A) (x : A) :
  find f l = Some x -> x ∈ l ∧ f x = true.
Proof.
  intros Hf. apply find_some in Hf as [Hin Hfx].
  split; [by apply list_elem_of_In | done].
Qed.

Lemma find_none_elem {A} (f : A -> bool) (l : list A) (x : A) :
  find f l = None -> x ∈ l -> f x = false.
Proof.
  intros Hf Hin. apply list_elem_of_In in Hin.
  by apply (find_none f l Hf).
Qed.

Lemma find_is_some_elem {A} (f : A -> bool) (l : list A) (x : A) :
  x ∈ l -> f x = true -> is_Some (find f l).
Proof.
  intros Hin Hfx. destruct (find f l) eqn:Hfind; [by eexists|].
  rewrite (find_none_elem f l x Hfind Hin) in Hfx. discriminate.
Qed.

Lemma filter_none {A} (P : A -> Prop) `{forall x, Decision (P x)} (l : list A) :
  (forall x, x ∈ l -> ¬ P x) -> filter P l = [].
Proof.
  induction l as [|x l IH]; intros Hl; [done|].
  rewrite filter_cons_False; [|apply Hl; by left].
  apply IH. intros y Hy. apply Hl. by right.
Qed.

(** In a list without two elements of the same key, exactly one element
    has the key of any of its elements. *)
Lemma nodup_key_once {A} (key : A -> string) (l : list A) (k : string) :
  NoDup (key <$> l) ->
  k ∈ key <$> l ->
  length (filter (fun r => key r = k) l) = 1%nat.
Proof.
  induction l as [|x l IH]; intros Hnd Hin.
  - by apply elem_of_nil in Hin.
  - rewrite fmap_cons in Hnd, Hin. apply NoDup_cons in Hnd as [Hx Hnd].
    rewrite filter_cons. destruct (decide (key x = k)) as [Hk|Hk].
    + simpl. f_equal. subst k.
      assert (filter (fun r => key r = key x) l = []) as ->; [|done].
      apply filter_none. intros y Hy Hkey.
      apply Hx. rewrite <- Hkey. by apply list_elem_of_fmap_2.
    + apply IH; [done|]. apply elem_of_cons in Hin as [Heq|Hin]; [congruence|done].
Qed.

(** In a list without two elements of the same key, the elements of a
    key are the one element that has it. *)
Lemma nodup_key_filter {A} (key : A -> string) (l : list A) (r : A) :
  NoDup (key <$> l) -> r ∈ l ->
  filter (fun x => key x = key r) l = [r].
Proof.
  induction l as [|x l IH]; intros Hnd Hin.
  - by apply elem_of_nil in Hin.
  - rewrite fmap_cons in Hnd. apply NoDup_cons in Hnd as [Hx Hnd].
    rewrite filter_cons. destruct (decide (key x = key r)) as [Hk|Hk].
    + assert (filter (fun y => key y = key r) l = []) as Hnone.
      { apply filter_none. intros y Hy Hkey.
        apply Hx. rewrite Hk, <- Hkey. by apply list_elem_of_fmap_2. }
      rewrite Hnone. f_equal.
      apply elem_of_cons in Hin as [Heq|Hin]; [done|].
      exfalso. apply Hx. rewrite Hk. by apply list_elem_of_fmap_2.
    + apply IH; [done|]. apply elem_of_cons in Hin as [Heq|Hin]; [|done].
      by subst x.
Qed.

(** [find] gives the first element that passes the test. *)
Lemma find_first_index {A} (f : A -> bool) (l : list A) (x : A) :
  find f l = Some x ->
  exists i, l !! i = Some x ∧ f x = true ∧
            forall j y, (j < i)%nat -> l !! j = Some y -> f y = false.
Proof.
  induction l as [|a l IH]; simpl; [done|].
  destruct (f a) eqn:Hfa.
  - intros [= <-]. exists 0%nat. split; [done|]. split; [done|].
    intros j y Hj. lia.
  - intros Hfind. destruct (IH Hfind) as (i & Hi & Hfx & Hmin).
    exists (S i). split; [done|]. split; [done|].
    intros j y Hj Hy. destruct j as [|j]; simpl in Hy.
    + by injection Hy as <-.
    + apply (Hmin j); [lia | done].
Qed.

(** ** The in-page script *)

Section ScriptFacts.

Import Script.

Lemma to_record_title f : get (to_record f) "title" = PyStr (f_title f).
Proof. done. Qed.

Lemma to_record_description f :
  get (to_record f) "description" = PyStr (f_body f).
Proof. done. Qed.

Lemma record_key_candidate c : record_key (candidate_record c) = candidate_key c.
Proof. done. Qed.

Lemma visit_inv_init : visit_inv [] ([], ∅).
Proof.
  split; simpl.
  - intros k. split; [set_solver | intros [? ?]; discriminate].
  - done.
  - apply NoDup_nil_2.
  - intros r Hr. by apply elem_of_nil in Hr.
Qed.

Lemma visit_inv_step visited st c :
  visit_inv visited st -> visit_inv (visited ++ [c]) (visit st c).
Proof.
  destruct st as [results seen]. intros [Hseen Hfirst Hnd Horig]. simpl in *.
  unfold visit. destruct (decide (candidate_key c ∈ seen)) as [Hin|Hnin].
  - (* the key was seen: nothing changes, an earlier candidate has it *)
    apply Hseen in Hin as [c0 Hc0].
    split; simpl.
    + intros k. rewrite Hseen, find_app_first.
      destruct (find (yields_key k) visited) eqn:Hk; [done|]. simpl.
      unfold yields_key at 1. case_bool_decide as Hck; [|done].
      subst k. rewrite Hc0 in Hk. discriminate.
    + intros k. rewrite Hfirst, find_app_first.
      destruct (find (yields_key k) visited) eqn:Hk; [done|]. simpl.
      unfold yields_key at 1. case_bool_decide as Hck; [|done].
      subst k. rewrite Hc0 in Hk. discriminate.
    + done.
    + intros r Hr. destruct (Horig r Hr) as (c' & Hc' & ->).
      exists c'. split; [|done]. apply elem_of_app. by left.
  - (* a new key: the record is appended *)
    assert (find (yields_key (candidate_key c)) visited = None) as Hnone.
    { destruct (find (yields_key (candidate_key c)) visited) eqn:Hk; [|done].
      exfalso. apply Hnin, Hseen. rewrite Hk. by eexists. }
    split; simpl.
    + intros k. rewrite elem_of_union, elem_of_singleton, Hseen, find_app_first.
      destruct (find (yields_key k) visited) eqn:Hk.
      * split; [by eexists | by right; eexists].
      * simpl. unfold yields_key at 1. case_bool_decide as Hck.
        -- split; [by eexists | by left].
        -- split; [intros [?|[? ?]]; congruence | intros [? ?]; discriminate].
    + intros k. rewrite !find_app_first, Hfirst.
      destruct (find (yields_key k) visited) eqn:Hk; [done|]. simpl.
      unfold has_key, yields_key. rewrite record_key_candidate.
      by case_bool_decide.
    + rewrite fmap_app. apply NoDup_app. split; [done|]. split.
      * intros k Hk1 Hk2. simpl in Hk2. apply list_elem_of_singleton in Hk2.
        rewrite record_key_candidate in Hk2. subst k.
        apply list_elem_of_fmap in Hk1 as (r & Hr1 & Hr2).
        assert (is_Some (find (has_key (candidate_key c)) results)) as [r' Hr'].
        { apply (find_is_some_elem _ _ r Hr2). unfold has_key.
          by apply bool_decide_eq_true. }
        rewrite Hfirst, Hnone in Hr'. discriminate.
      * simpl. apply NoDup_singleton.
    + intros r Hr. apply elem_of_app in Hr as [Hr|Hr].
      * destruct (Horig r Hr) as (c' & Hc' & ->).
        exists c'. split; [|done]. apply elem_of_app. by left.
      * apply list_elem_of_singleton in Hr. subst r.
        exists c. split; [|done]. apply elem_of_app. right. by apply list_elem_of_singleton.
Qed.

Lemma visit_inv_fold (l visited : list Element) st :
  visit_inv visited st -> visit_inv (visited ++ l) (fold_left visit l st).
Proof.
  revert visited st. induction l as [|c l IH]; intros visited st Hinv; simpl.
  - by rewrite app_nil_r.
  - replace (visited ++ c :: l) with ((visited ++ [c]) ++ l)
      by (by rewrite <- app_assoc).
    apply IH. by apply visit_inv_step.
Qed.

Lemma run_inv (nodes : list Element) :
  visit_inv (candidates nodes) (fold_left visit (candidates nodes) ([], ∅)).
Proof. apply (visit_inv_fold _ [] _ visit_inv_init). Qed.

Lemma run_origin (nodes : list Element) (r : dict) :
  r ∈ run nodes -> exists c, c ∈ candidates nodes ∧ r = candidate_record c.
Proof. apply (inv_origin _ _ (run_inv nodes)). Qed.

Lemma candidates_long_only (nodes : list Element) :
  candidates (filter (fun n => (50 <= String.length (innerText n))%nat) nodes)
  = candidates nodes.
Proof.
  unfold candidates. induction nodes as [|n nodes IH]; [done|].
  rewrite !filter_cons. destruct (decide (50 <= String.length (innerText n))%nat) as [Hlen|Hlen].
  - rewrite filter_cons, IH. done.
  - rewrite IH. destruct (decide (is_candidate n = true)) as [Hc|Hc]; [|done].
    exfalso. unfold is_candidate in Hc.
    destruct (String.length (innerText n) <? 50)%nat eqn:Hlt; [discriminate|].
    apply Nat.ltb_ge in Hlt. lia.
Qed.

Lemma candidate_long (nodes : list Element) (c : Element) :
  c ∈ candidates nodes -> c ∈ nodes ∧ (50 <= String.length (innerText c))%nat.
Proof.
  unfold candidates. intros Hc. apply list_elem_of_filter in Hc as [Hc Hin].
  split; [done|]. unfold is_candidate in Hc.
  destruct (String.length (innerText c) <? 50)%nat eqn:Hlt; [discriminate|].
  by apply Nat.ltb_ge in Hlt.
Qed.

End ScriptFacts.

Section ScriptTheorems.

Import Script.

(** C6. Within one extraction pass the records are deduplicated by the
    key of line 109, the first 200 characters of the title, a bar and the
    first 80 characters of the body, which is also what the title and the
    description of a record give back.  No two records of the output have
    the same key and every record is the record of a candidate.  For
    every candidate the output has exactly one record of its key, and it
    is the record of the first candidate, in document order, that yields
    the key: first seen wins. *)
Theorem extractor_dedup_first_seen_wins (nodes : list Element) :
  (forall c,
     candidate_key c
     = Str.take 200 (f_title (extract_fields c) +:+ "|"
                     +:+ Str.take 80 (f_body (extract_fields c)))) ∧
  (forall r,
     record_key r
     = Str.take 200 (or_empty (get r "title") +:+ "|"
                     +:+ Str.take 80 (or_empty (get r "description")))) ∧
  NoDup (record_key <$> run nodes) ∧
  (forall r, r ∈ run nodes ->
     exists c, c ∈ candidates nodes ∧ r = candidate_record c) ∧
  (forall c, c ∈ candidates nodes ->
     exists i first,
       candidates nodes !! i = Some first ∧
       candidate_key first = candidate_key c ∧
       (forall j c', (j < i)%nat -> candidates nodes !! j = Some c' ->
                     candidate_key c' ≠ candidate_key c) ∧
       filter (fun r => record_key r = candidate_key c) (run nodes)
       = [candidate_record first]).
Proof.
  destruct (run_inv nodes) as [Hseen Hfirst Hnd Horig].
  split; [done|]. split; [done|]. split; [done|]. split; [done|].
  intros c Hc.
  destruct (find_is_some_elem (yields_key (candidate_key c)) _ c Hc)
    as [first Hfind].
  { unfold yields_key. by apply bool_decide_eq_true. }
  destruct (find_first_index _ _ _ Hfind) as (i & Hi & Hkey & Hmin).
  unfold yields_key in Hkey. apply bool_decide_eq_true in Hkey.
  exists i, first. split; [done|]. split; [done|]. split.
  - intros j c' Hj Hc'. specialize (Hmin j c' Hj Hc').
    unfold yields_key in Hmin. by apply bool_decide_eq_false in Hmin.
  - specialize (Hfirst (candidate_key c)). rewrite Hfind in Hfirst.
    simpl in Hfirst. apply find_some_elem in Hfirst as [Hin _].
    rewrite <- Hkey, <- (record_key_candidate first).
    by apply nodup_key_filter.
Qed.

(** C7. A node whose visible text has fewer than 50 characters never
    contributes a record: removing such nodes from the document leaves the
    output unchanged, every record of the output comes from a node of at
    least 50 characters, and a document of short nodes only gives no
    record. *)
Theorem short_nodes_never_extracted (nodes : list Element) :
  run nodes
  = run (filter (fun n => (50 <= String.length (innerText n))%nat) nodes) ∧
  (forall r, r ∈ run nodes ->
     exists n, n ∈ nodes ∧ (50 <= String.length (innerText n))%nat
               ∧ r = candidate_record n) ∧
  ((forall n, n ∈ nodes -> (String.length (innerText n) < 50)%nat) ->
   run nodes = []).
Proof.
  split; [|split].
  - unfold run. by rewrite candidates_long_only.
  - intros r Hr. destruct (run_origin nodes r Hr) as (c & Hc & ->).
    destruct (candidate_long nodes c Hc) as [Hin Hlen]. by exists c.
  - intros Hshort. unfold run.
    assert (candidates nodes = []) as ->; [|done].
    apply filter_none. intros n Hn Hc.
    assert (n ∈ candidates nodes) as Hcand.
    { unfold candidates. by apply list_elem_of_filter. }
    destruct (candidate_long nodes n Hcand) as [_ Hlen].
    specialize (Hshort n Hn). lia.
Qed.

End ScriptTheorems.

Module ScriptSamples.

Import Script Sample.

Lemma short_text_length : String.length short_text = 49%nat.
Proof. reflexivity. Qed.

Lemma twin_same_key : candidate_key twin_card = candidate_key first_card.
Proof. reflexivity. Qed.

Lemma twin_same_key_sym : candidate_key first_card = candidate_key twin_card.
Proof. reflexivity. Qed.

Lemma twins_collapse :
  run [first_card; twin_card; other_card]
  = [candidate_record first_card; candidate_record other_card].
Proof. vm_compute. reflexivity. Qed.

(** Two cards of the same title and body, the second with another date:
    the output has the record of the first one, with its date. *)
Lemma extractor_dedup_witness :
  twin_card ∈ candidates [first_card; twin_card; other_card] ∧
  candidate_key twin_card = "Great|" +:+ praise ∧
  filter (fun r => record_key r = candidate_key twin_card)
         (run [first_card; twin_card; other_card])
  = [candidate_record first_card] ∧
  get (candidate_record first_card) "date" = PyStr "2024-03-15".
Proof.
  assert (twin_card ∈ candidates [first_card; twin_card; other_card]) as Hin.
  { change (candidates [first_card; twin_card; other_card])
      with [first_card; twin_card; other_card].
    apply list_elem_of_further, list_elem_of_here. }
  split; [exact Hin|].
  destruct (extractor_dedup_first_seen_wins [first_card; twin_card; other_card])
    as (Hkey & _ & _ & _ & Hwins).
  split; [rewrite Hkey; reflexivity|].
  split; [|reflexivity].
  destruct (Hwins twin_card Hin) as (i & first & Hi & _ & Hmin & Hfilter).
  change (candidates [first_card; twin_card; other_card])
    with [first_card; twin_card; other_card] in Hi, Hmin.
  destruct i as [|i].
  - injection Hi as <-. exact Hfilter.
  - exfalso. apply (Hmin 0%nat first_card (Nat.lt_0_succ i) eq_refl).
    exact twin_same_key_sym.
Defined.

Lemma short_nodes_witness :
  (forall n, n ∈ [short_card; leaf "stars"] ->
             (String.length (innerText n) < 50)%nat) ∧
  run [short_card; leaf "stars"] = [].
Proof.
  assert (forall n, n ∈ [short_card; leaf "stars"] ->
                    (String.length (innerText n) < 50)%nat) as Hshort.
  { intros n Hn. apply elem_of_cons in Hn as [->|Hn]; [simpl; lia|].
    apply list_elem_of_singleton in Hn as ->. simpl. lia. }
  split; [exact Hshort|].
  exact (proj2 (proj2 (short_nodes_never_extracted [short_card; leaf "stars"])) Hshort).
Defined.

End ScriptSamples.

(** ** The collector *)

Ltac unfold_result :=
  unfold mbind, mret, result_bind, result_ret in *; simpl in *.

Section CollectorFacts.

Context `{Browser}.

Lemma extracted_has_title (page : Page) (r : dict) :
  r ∈ extract_reviews_from_dom page -> exists s, r !! "title" = Some (PyStr s).
Proof.
  unfold extract_reviews_from_dom. destruct (document_nodes page) as [nodes|e].
  - intros Hr. destruct (run_origin nodes r Hr) as (c & _ & ->).
    by eexists.
  - intros Hr. by apply elem_of_nil in Hr.
Qed.

Lemma collect_key_ok (r : dict) (s : string) :
  r !! "title" = Some (PyStr s) -> exists k, collect_key r = Ok k.
Proof.
  intros Ht. unfold collect_key, get_or. rewrite Ht. simpl. by eexists.
Qed.

Lemma merge_one_grows (a a' : Accum) (r : dict) :
  merge_one a r = Ok a' ->
  collected a `prefix_of` collected a' ∧
  (length (collected a') + new_count a = length (collected a) + new_count a')%nat.
Proof.
  unfold merge_one. destruct (collect_key r) as [k|e]; unfold_result; [|done].
  destruct (decide (k ∈ seen_keys a)); intros [= <-]; simpl.
  - done.
  - split; [by apply prefix_app_r|]. rewrite length_app. simpl. lia.
Qed.

Lemma merge_found_grows (found : list dict) (a a' : Accum) :
  merge_found a found = Ok a' ->
  collected a `prefix_of` collected a' ∧
  (length (collected a') + new_count a = length (collected a) + new_count a')%nat.
Proof.
  revert a. induction found as [|r found IH]; intros a; simpl.
  - intros [= <-]. done.
  - destruct (merge_one a r) as [a1|e] eqn:H1; unfold_result; [|done].
    intros H2. apply merge_one_grows in H1 as [Hp1 Hl1].
    apply IH in H2 as [Hp2 Hl2].
    split; [by etrans | lia].
Qed.

Lemma merge_found_ok (found : list dict) (a : Accum) :
  (forall r, r ∈ found -> exists s, r !! "title" = Some (PyStr s)) ->
  exists a', merge_found a found = Ok a'.
Proof.
  revert a. induction found as [|r found IH]; intros a Hall; simpl.
  - by eexists.
  - destruct (Hall r) as [s Hs]; [by left|].
    destruct (collect_key_ok r s Hs) as [k Hk].
    unfold merge_one. rewrite Hk. unfold_result.
    destruct (decide (k ∈ seen_keys a)); apply IH; intros r' Hr'; apply Hall; by right.
Qed.

Lemma merge_extracted_ok (page : Page) (a : Accum) :
  exists a', merge_found a (extract_reviews_from_dom page) = Ok a'.
Proof. apply merge_found_ok, extracted_has_title. Qed.

Lemma scroll_loop_bounded (n : nat) (wait_ms : Z) (page : Page)
    (c0 : list dict) (s0 : gset string) (last_len : nat) :
  (length (scroll_loop n wait_ms page c0 s0 last_len).1 <= n)%nat.
Proof.
  revert page c0 s0 last_len. induction n as [|n IH]; intros; simpl; [done|].
  destruct (merge_found _ _) as [a|e]; simpl; [|lia].
  destruct (paginate wait_ms page) as [page' [e|]]; simpl; [lia|].
  destruct (_ && _); simpl; [lia|].
  specialize (IH page' (collected a) (seen_keys a) (length (collected a))).
  destruct (scroll_loop n _ _ _ _ _) as [rounds res]. simpl in *. lia.
Qed.

Lemma scroll_loop_starts (n : nat) (wait_ms : Z) (page : Page)
    (c0 : list dict) (s0 : gset string) (last_len : nat) :
  (scroll_loop (S n) wait_ms page c0 s0 last_len).1 ≠ [].
Proof.
  simpl. destruct (merge_extracted_ok page (mkAccum c0 s0 0)) as [a ->].
  destruct (paginate wait_ms page) as [page' [e|]]; [done|].
  destruct (_ && _); [done|].
  by destruct (scroll_loop n _ _ _ _ _).
Qed.

Lemma scroll_loop_shape (n : nat) (wait_ms : Z) (page : Page)
    (c0 : list dict) (s0 : gset string) :
  run_shape c0 (scroll_loop n wait_ms page c0 s0 (length c0)).1
               (scroll_loop n wait_ms page c0 s0 (length c0)).2.
Proof.
  revert page c0 s0. induction n as [|n IH]; intros; simpl; [done|].
  destruct (merge_extracted_ok page (mkAccum c0 s0 0)) as [a Ha]. rewrite Ha.
  apply merge_found_grows in Ha as [Hpre Hlen]. simpl in *.
  destruct (paginate wait_ms page) as [page' [e|]]; simpl.
  { repeat split; [done | lia]. }
  destruct (_ && _) eqn:Htest; simpl.
  - repeat split; [done | lia | done..].
  - specialize (IH page' (collected a) (seen_keys a)).
    destruct (scroll_loop n _ _ _ _ _) as [rounds res]. simpl in *.
    repeat split; [done | lia | | done].
    intros Hzero. exfalso. apply andb_false_iff in Htest as [Ht|Ht].
    + apply Nat.eqb_neq in Ht. lia.
    + apply Nat.eqb_neq in Ht. lia.
Qed.

Lemma page_after_succ (wait_ms : Z) (i : nat) (page : Page) :
  page_after wait_ms i (paginate wait_ms page).1 = page_after wait_ms (S i) page.
Proof. unfold page_after. by rewrite Nat.iter_succ_r. Qed.

(** What an iteration records of its pagination step is what the step
    lets through on the page the iteration started with. *)
Lemma scroll_loop_raised (n : nat) (wait_ms : Z) (page : Page)
    (c0 : list dict) (s0 : gset string) (last_len : nat) (i : nat) (rd : Round) :
  (scroll_loop n wait_ms page c0 s0 last_len).1 !! i = Some rd ->
  r_raised rd = (paginate wait_ms (page_after wait_ms i page)).2.
Proof.
  revert page c0 s0 last_len i.
  induction n as [|n IH]; intros page c0 s0 last_len i; simpl; [done|].
  destruct (merge_found _ _) as [a|e]; simpl; [|done].
  destruct (paginate wait_ms page) as [page' raised] eqn:Hpag.
  pose proof (f_equal fst Hpag) as Hp. simpl in Hp. subst page'.
  destruct raised as [e|]; simpl.
  { destruct i as [|i]; simpl; [|done]. intros [= <-]. simpl.
    change (page_after wait_ms 0 page) with page. by rewrite Hpag. }
  destruct (_ && _); simpl.
  { destruct i as [|i]; simpl; [|done]. intros [= <-]. simpl.
    change (page_after wait_ms 0 page) with page. by rewrite Hpag. }
  specialize (IH (paginate wait_ms page).1 (collected a) (seen_keys a)
                 (length (collected a))).
  destruct (scroll_loop n _ _ _ _ _) as [rounds res]. simpl in *.
  destruct i as [|i].
  - intros [= <-]. simpl. change (page_after wait_ms 0 page) with page.
    by rewrite Hpag.
  - intros Hi. simpl in Hi. rewrite <- page_after_succ. by apply IH.
Qed.

(** Consequences of the shape of a run, by induction on its iterations. *)

Lemma run_shape_extends (rounds : list Round) (before : list dict)
    (res : result (list dict)) (rd : Round) :
  run_shape before rounds res -> rd ∈ rounds -> before `prefix_of` r_collected rd.
Proof.
  revert before. induction rounds as [|r0 rounds IH]; intros before Hs Hin.
  - by apply elem_of_nil in Hin.
  - destruct Hs as (_ & Hpre & _ & Hrest).
    apply elem_of_cons in Hin as [->|Hin]; [done|].
    destruct (r_raised r0) as [e|].
    + destruct Hrest as [-> _]. by apply elem_of_nil in Hin.
    + destruct Hrest as [_ Hrest]. etrans; [exact Hpre|]. by apply IH.
Qed.

(** A run that returns a list: no pagination step raised, and the list
    extends the list of every iteration. *)
Lemma run_shape_returned (rounds : list Round) (before : list dict)
    (res : result (list dict)) (l : list dict) :
  run_shape before rounds res -> res = Ok l ->
  before `prefix_of` l ∧
  forall rd, rd ∈ rounds -> r_collected rd `prefix_of` l ∧ r_raised rd = None.
Proof.
  revert before. induction rounds as [|r0 rounds IH]; intros before Hs Hres.
  - simpl in Hs. subst res. injection Hres as <-. split; [done|].
    intros rd Hrd. by apply elem_of_nil in Hrd.
  - destruct Hs as (_ & Hpre & _ & Hrest).
    destruct (r_raised r0) as [e|] eqn:Hraised.
    + destruct Hrest as [_ ->]. discriminate.
    + destruct Hrest as [_ Hrest].
      destruct (IH _ Hrest Hres) as (Hl & Hall).
      split; [by etrans|].
      intros rd Hrd. apply elem_of_cons in Hrd as [->|Hrd]; [done | by apply Hall].
Qed.

(** A run none of whose pagination steps raised returns a list. *)
Lemma run_shape_ok (rounds : list Round) (before : list dict)
    (res : result (list dict)) :
  run_shape before rounds res ->
  (forall rd, rd ∈ rounds -> r_raised rd = None) ->
  exists l, res = Ok l.
Proof.
  revert before. induction rounds as [|r0 rounds IH]; intros before Hs Hall.
  - by exists before.
  - destruct Hs as (_ & _ & _ & Hrest).
    rewrite (Hall r0) in Hrest by (by left).
    destruct Hrest as [_ Hrest]. apply (IH _ Hrest).
    intros rd Hrd. apply Hall. by right.
Qed.

(** A run that raises: the exception is the one the pagination step of
    its last iteration let through. *)
Lemma run_shape_raise (rounds : list Round) (before : list dict)
    (res : result (list dict)) (e : exn) :
  run_shape before rounds res -> res = Raise e ->
  exists rd, last rounds = Some rd ∧ r_raised rd = Some e.
Proof.
  revert before. induction rounds as [|r0 rounds IH]; intros before Hs Hres.
  - simpl in Hs. subst res. discriminate.
  - destruct Hs as (_ & _ & _ & Hrest).
    destruct (r_raised r0) as [e0|] eqn:Hraised.
    + destruct Hrest as [-> ->]. injection Hres as <-. by exists r0.
    + destruct Hrest as [_ Hrest].
      destruct (IH _ Hrest Hres) as (rd & Hlast & Hrd).
      exists rd. split; [|done].
      destruct rounds as [|r1 rounds]; [done|]. by rewrite last_cons_cons.
Qed.

Lemma run_shape_monotone (rounds : list Round) (before : list dict)
    (res : result (list dict)) (i j : nat) (rd rd' : Round) :
  run_shape before rounds res -> (i <= j)%nat ->
  rounds !! i = Some rd -> rounds !! j = Some rd' ->
  r_collected rd `prefix_of` r_collected rd'.
Proof.
  revert before i j. induction rounds as [|r0 rounds IH]; intros before i j Hs Hij Hi Hj.
  - done.
  - destruct Hs as (_ & _ & _ & Hrest).
    destruct i as [|i]; destruct j as [|j]; simpl in *.
    + by simplify_eq.
    + simplify_eq. destruct (r_raised rd) as [e|].
      * destruct Hrest as [-> _]. done.
      * destruct Hrest as [_ Hrest].
        apply (run_shape_extends rounds _ res); [done|].
        by eapply list_elem_of_lookup_2.
    + lia.
    + destruct (r_raised r0) as [e|].
      * destruct Hrest as [-> _]. done.
      * destruct Hrest as [_ Hrest].
        apply (IH (r_collected r0) i j); [done | lia | done | done].
Qed.

Lemma run_shape_stagnation (rounds : list Round) (before : list dict)
    (res : result (list dict)) (i : nat) (rd : Round) :
  run_shape before rounds res ->
  rounds !! i = Some rd -> r_new_count rd = 0%nat ->
  length (r_collected rd) = r_last_len rd ∧ length rounds = S i ∧
  res = round_outcome rd.
Proof.
  revert before i. induction rounds as [|r0 rounds IH]; intros before i Hs Hi Hz.
  - done.
  - destruct Hs as (Hlast & _ & Hlen & Hrest). unfold round_outcome.
    destruct i as [|i]; simpl in *.
    + simplify_eq. destruct (r_raised rd) as [e|].
      * destruct Hrest as [-> ->]. split_and!; [lia | done..].
      * destruct Hrest as [Hstop Hrest]. specialize (Hstop Hz). subst rounds.
        simpl in Hrest. split_and!; [lia | done..].
    + destruct (r_raised r0) as [e|].
      * destruct Hrest as [-> _]. done.
      * destruct Hrest as [_ Hrest].
        destruct (IH _ i Hrest Hi Hz) as (H1 & H2 & H3).
        split_and!; [done | lia | done].
Qed.

End CollectorFacts.

Section CollectorTheorems.

Context `{Browser}.

Lemma scroll_loop_full (n : nat) (wait_ms : Z) (page : Page)
    (c0 : list dict) (s0 : gset string) (last_len : nat) :
  (forall rd, rd ∈ (scroll_loop n wait_ms page c0 s0 last_len).1 ->
              (0 < r_new_count rd)%nat ∧ r_raised rd = None) ->
  length (scroll_loop n wait_ms page c0 s0 last_len).1 = n.
Proof.
  revert page c0 s0 last_len. induction n as [|n IH]; intros page c0 s0 last_len; simpl; [done|].
  destruct (merge_extracted_ok page (mkAccum c0 s0 0)) as [a ->].
  destruct (paginate wait_ms page) as [page' [e|]]; simpl.
  { intros Hall. exfalso.
    destruct (Hall (mkRound last_len (new_count a) (collected a) (Some e)))
      as [_ Hnone]; [by left | done]. }
  destruct (_ && _) eqn:Htest; simpl.
  - intros Hall. exfalso. apply andb_true_iff in Htest as [_ Hz].
    apply Nat.eqb_eq in Hz.
    destruct (Hall (mkRound last_len (new_count a) (collected a) None))
      as [Hpos _]; [by left|].
    simpl in Hpos. rewrite Hz in Hpos. by apply (Nat.lt_irrefl 0).
  - specialize (IH page' (collected a) (seen_keys a) (length (collected a))).
    destruct (scroll_loop n _ _ _ _ _) as [rounds res]. simpl in *.
    intros Hall. f_equal. apply IH. intros rd Hrd. apply Hall. by right.
Qed.

(** C3, amended. An iteration of the collector that counts no new record
    did not grow the list and is the last one: the collector returns the
    list as it stands, unless the pagination step of that iteration let
    an exception through, which is then the outcome of the collector.  If
    no iteration counts a new record, the loop runs one iteration (none
    when [max_scrolls] is zero) and returns the empty list, whatever
    [max_scrolls] is, unless the pagination step on the initial page lets
    an exception through. *)
Theorem stagnation_halts_collector (page : Page) (max_scrolls : nat) (wait_ms : Z) :
  (forall i rd,
     (scroll_rounds page max_scrolls wait_ms).1 !! i = Some rd ->
     r_new_count rd = 0%nat ->
     length (r_collected rd) = r_last_len rd ∧
     length (scroll_rounds page max_scrolls wait_ms).1 = S i ∧
     r_raised rd = (paginate wait_ms (page_after wait_ms i page)).2 ∧
     scroll_and_collect page max_scrolls wait_ms = round_outcome rd) ∧
  ((forall rd, rd ∈ (scroll_rounds page max_scrolls wait_ms).1 ->
               r_new_count rd = 0%nat) ->
   length (scroll_rounds page max_scrolls wait_ms).1 = Nat.min 1 max_scrolls ∧
   scroll_and_collect page max_scrolls wait_ms
   = match max_scrolls, (paginate wait_ms page).2 with
     | S _, Some e => Raise e
     | _, _ => Ok []
     end).
Proof.
  pose proof (scroll_loop_shape max_scrolls wait_ms page [] ∅) as Hshape.
  split.
  - intros i rd Hi Hz.
    destruct (run_shape_stagnation _ _ _ i rd Hshape Hi Hz) as (H1 & H2 & H3).
    repeat split; [done | done | | done].
    by apply (scroll_loop_raised max_scrolls wait_ms page [] ∅ 0).
  - intros Hall. destruct max_scrolls as [|n]; [done|].
    pose proof (scroll_loop_starts n wait_ms page [] ∅ 0) as Hne.
    pose proof (scroll_loop_raised (S n) wait_ms page [] ∅ 0 0) as Hraised.
    unfold scroll_and_collect, scroll_rounds in *.
    change (length (@nil dict)) with 0%nat in Hshape.
    destruct (scroll_loop (S n) wait_ms page [] ∅ 0) as [rounds res].
    simpl in *. destruct rounds as [|rd rest]; [done|].
    assert (r_new_count rd = 0%nat) as Hz by (apply Hall; by left).
    destruct (run_shape_stagnation _ _ _ 0 rd Hshape eq_refl Hz) as (Hlen & Hone & Hres).
    destruct Hshape as (Hlast & _). simpl in Hlast.
    split; [done|]. rewrite Hres. unfold round_outcome.
    rewrite <- (Hraised rd eq_refl).
    destruct (r_raised rd); [done|]. f_equal.
    apply nil_length_inv. lia.
Qed.

(** C4. Whatever the page does, the collector runs at most [max_scrolls]
    iterations and then ends: it returns a list, no pagination step
    having raised, or it raises the exception that the pagination step of
    its last iteration let through.  When every iteration counts new
    records and no pagination step raises, it runs exactly [max_scrolls]
    iterations. *)
Theorem collector_bounded_by_max_scrolls (page : Page) (max_scrolls : nat)
    (wait_ms : Z) :
  (length (scroll_rounds page max_scrolls wait_ms).1 <= max_scrolls)%nat ∧
  ((exists l, scroll_and_collect page max_scrolls wait_ms = Ok l ∧
              forall rd, rd ∈ (scroll_rounds page max_scrolls wait_ms).1 ->
                         r_raised rd = None) ∨
   (exists e rd, scroll_and_collect page max_scrolls wait_ms = Raise e ∧
                 last (scroll_rounds page max_scrolls wait_ms).1 = Some rd ∧
                 r_raised rd = Some e)) ∧
  ((forall rd, rd ∈ (scroll_rounds page max_scrolls wait_ms).1 ->
               (0 < r_new_count rd)%nat ∧ r_raised rd = None) ->
   length (scroll_rounds page max_scrolls wait_ms).1 = max_scrolls).
Proof.
  split; [apply scroll_loop_bounded|]. split; [|apply scroll_loop_full].
  pose proof (scroll_loop_shape max_scrolls wait_ms page [] ∅) as Hshape.
  destruct (scroll_and_collect page max_scrolls wait_ms) as [l|e] eqn:Hres.
  - left. exists l. split; [done|]. intros rd Hrd.
    by destruct (run_shape_returned _ _ _ l Hshape Hres) as (_ & Hall);
      destruct (Hall rd Hrd).
  - right. destruct (run_shape_raise _ _ _ e Hshape Hres) as (rd & Hlast & Hrd).
    by exists e, rd.
Qed.

(** C5. The accumulated list only grows: the list of an iteration is a
    prefix of the list of every later iteration, so no record is removed
    or replaced and the length never decreases; a list the collector
    returns extends the list of every iteration. *)
Theorem collector_only_grows (page : Page) (max_scrolls : nat) (wait_ms : Z) :
  (forall i j rd rd',
     (i <= j)%nat ->
     (scroll_rounds page max_scrolls wait_ms).1 !! i = Some rd ->
     (scroll_rounds page max_scrolls wait_ms).1 !! j = Some rd' ->
     r_collected rd `prefix_of` r_collected rd' ∧
     (length (r_collected rd) <= length (r_collected rd'))%nat) ∧
  (forall l rd,
     scroll_and_collect page max_scrolls wait_ms = Ok l ->
     rd ∈ (scroll_rounds page max_scrolls wait_ms).1 ->
     r_collected rd `prefix_of` l).
Proof.
  pose proof (scroll_loop_shape max_scrolls wait_ms page [] ∅) as Hshape.
  split.
  - intros i j rd rd' Hij Hi Hj.
    pose proof (run_shape_monotone _ _ _ i j rd rd' Hshape Hij Hi Hj) as Hpre.
    split; [done | by apply prefix_length].
  - intros l rd Hl Hrd.
    destruct (run_shape_returned _ _ _ l Hshape Hl) as (_ & Hall).
    by destruct (Hall rd Hrd).
Qed.

End CollectorTheorems.

Module CollectorSamples.

Import Sample.

(** The scenario of a page without any review: three iterations allowed,
    one run, nothing collected. *)
Lemma stagnation_witness :
  (forall rd, rd ∈ (@scroll_rounds barren [] 3 800).1 -> r_new_count rd = 0%nat) ∧
  length (@scroll_rounds barren [] 3 800).1 = 1%nat ∧
  @scroll_and_collect barren [] 3 800 = Ok [].
Proof.
  assert (forall rd, rd ∈ (@scroll_rounds barren [] 3 800).1 ->
                     r_new_count rd = 0%nat) as Hall.
  { intros rd Hrd. change ((@scroll_rounds barren [] 3 800).1)
      with [mkRound 0 0 [] None] in Hrd.
    apply list_elem_of_singleton in Hrd. by subst rd. }
  split; [exact Hall|].
  exact (proj2 (@stagnation_halts_collector barren [] 3 800) Hall).
Defined.

(** C3 as stated fails when the pagination step raises.  On a closed
    page the extraction fails and gives no record (lines 124-129), the
    only iteration counts no new record, and the error of
    [query_selector], which line 170 does not catch, leaves the collector
    where the claim has it return the empty list. *)
Lemma stagnant_round_raises :
  (forall rd, rd ∈ (@scroll_rounds crashing tt 3 800).1 -> r_new_count rd = 0%nat) ∧
  length (@scroll_rounds crashing tt 3 800).1 = 1%nat ∧
  @scroll_and_collect crashing tt 3 800 = Raise PlaywrightError ∧
  @scroll_and_collect crashing tt 3 800 ≠ Ok [].
Proof.
  split; [|split; [reflexivity | split; [reflexivity | discriminate]]].
  intros rd Hrd. change ((@scroll_rounds crashing tt 3 800).1)
    with [mkRound 0 0 [] (Some PlaywrightError)] in Hrd.
  apply list_elem_of_singleton in Hrd. by subst rd.
Qed.

(** A page that never runs out of new cards: the loop stops at the cap. *)
Lemma endless_page_witness :
  (forall rd, rd ∈ (@scroll_rounds endless 0%nat 3 800).1 ->
              (0 < r_new_count rd)%nat ∧ r_raised rd = None) ∧
  length (@scroll_rounds endless 0%nat 3 800).1 = 3%nat.
Proof.
  assert (forall rd, rd ∈ (@scroll_rounds endless 0%nat 3 800).1 ->
                     (0 < r_new_count rd)%nat ∧ r_raised rd = None) as Hall.
  { intros rd Hrd.
    assert (Forall (fun rd => r_new_count rd = 1%nat ∧ r_raised rd = None)
                   (@scroll_rounds endless 0%nat 3 800).1) as Hones.
    { vm_compute. repeat constructor. }
    rewrite Forall_forall in Hones. destruct (Hones rd Hrd) as [-> ->].
    split; [lia | done]. }
  split; [exact Hall|].
  exact (proj2 (proj2 (@collector_bounded_by_max_scrolls endless 0%nat 3 800)) Hall).
Defined.

Lemma growth_witness :
  exists rd rd',
    (@scroll_rounds (browser (fun _ => true) growing_site) growing_site 40 800).1 !! 0%nat
      = Some rd ∧
    (@scroll_rounds (browser (fun _ => true) growing_site) growing_site 40 800).1 !! 1%nat
      = Some rd' ∧
    length (r_collected rd) = 1%nat ∧ length (r_collected rd') = 2%nat ∧
    r_collected rd `prefix_of` r_collected rd'.
Proof.
  destruct ((@scroll_rounds (browser (fun _ => true) growing_site)
               growing_site 40 800).1 !! 0%nat) as [rd|] eqn:H0;
    [|vm_compute in H0; discriminate].
  destruct ((@scroll_rounds (browser (fun _ => true) growing_site)
               growing_site 40 800).1 !! 1%nat) as [rd'|] eqn:H1;
    [|vm_compute in H1; discriminate].
  exists rd, rd'. split; [done|]. split; [done|].
  split; [vm_compute in H0; by injection H0 as <-|].
  split; [vm_compute in H1; by injection H1 as <-|].
  exact (proj1 (proj1 (@collector_only_grows (browser (fun _ => true) growing_site)
                         growing_site 40 800) 0%nat 1%nat rd rd'
                      (Nat.le_succ_diag_r 0) H0 H1)).
Defined.

End CollectorSamples.

(** ** The adapters *)

Section AdapterFacts.

Context `{DateParser}.

Lemma r_copy_six_string_fields (r : dict) (date source : string) :
  six_string_fields (r_copy r date source).
Proof.
  split.
  - unfold r_copy, record_fields. rewrite !dom_insert_L, dom_empty_L. set_solver.
  - intros k Hk. unfold record_fields in Hk.
    rewrite !elem_of_union, !elem_of_singleton in Hk.
    destruct Hk as [[[[[->| ->]| ->]| ->]| ->]| ->]; by eexists.
Qed.

Lemma r_copy_copied_from (r : dict) (date source : string) :
  copied_from r (r_copy r date source).
Proof.
  intros k Hk. rewrite !elem_of_cons in Hk.
  destruct Hk as [->|[->|[->|[->|Hk]]]]; [done..|].
  by apply elem_of_nil in Hk.
Qed.

Lemma for_append_origin {A B} (body : A -> result (option B)) (l : list A)
    (out : list B) (y : B) :
  for_append body l = Ok out -> y ∈ out ->
  exists x, x ∈ l ∧ body x = Ok (Some y).
Proof.
  revert out. induction l as [|x l IH]; intros out; simpl.
  - intros [= <-] Hy. by apply elem_of_nil in Hy.
  - destruct (body x) as [o|e] eqn:Hx; unfold_result; [|done].
    destruct (for_append body l) as [ys|e] eqn:Hl; unfold_result; [|done].
    intros [= <-] Hy.
    assert (y ∈ ys -> exists x0, x0 ∈ x :: l ∧ body x0 = Ok (Some y)) as Hrest.
    { intros Hin. destruct (IH ys eq_refl Hin) as (x0 & Hx0 & Hb).
      exists x0. split; [by right | done]. }
    destruct o as [b|]; [|by apply Hrest].
    apply elem_of_cons in Hy as [->|Hy]; [|by apply Hrest].
    exists x. split; [by left | done].
Qed.

Lemma for_append_kept {A B} (body : A -> result (option B)) (l : list A)
    (out : list B) (x : A) (y : B) :
  for_append body l = Ok out -> x ∈ l -> body x = Ok (Some y) -> y ∈ out.
Proof.
  revert out. induction l as [|x0 l IH]; intros out; simpl.
  - intros _ Hx. by apply elem_of_nil in Hx.
  - destruct (body x0) as [o|e] eqn:Hx0; unfold_result; [|done].
    destruct (for_append body l) as [ys|e] eqn:Hl; unfold_result; [|done].
    intros [= <-] Hx Hb. apply elem_of_cons in Hx as [->|Hx].
    + rewrite Hb in Hx0. injection Hx0 as <-. by left.
    + specialize (IH ys eq_refl Hx Hb). destruct o; [by right | done].
Qed.

Lemma for_append_total {A B} (body : A -> result (option B)) (f : A -> option B)
    (l : list A) :
  (forall x, x ∈ l -> body x = Ok (f x)) -> for_append body l = Ok (omap f l).
Proof.
  induction l as [|x l IH]; intros Hall; simpl; [done|].
  rewrite (Hall x) by (by left). unfold_result.
  rewrite IH by (intros x0 Hx0; apply Hall; by right). unfold_result.
  by destruct (f x).
Qed.

Lemma dated_normalize_one_shape (source : string) (start end_ : datetime)
    (r y : dict) :
  dated_normalize_one source start end_ r = Ok (Some y) ->
  six_string_fields y ∧ copied_from r y.
Proof.
  unfold dated_normalize_one.
  destruct (parse_date_safe (or_empty (get r "date"))) as [d|].
  - destruct (within_range d start end_) as [[]|e]; unfold_result; intros [= <-].
    split; [apply r_copy_six_string_fields | apply r_copy_copied_from].
  - unfold_result. intros [= <-].
    split; [apply r_copy_six_string_fields | apply r_copy_copied_from].
Qed.

Lemma g2_normalize_one_shape (start end_ : datetime) (r y : dict) :
  g2_normalize_one start end_ r = Ok (Some y) ->
  six_string_fields y ∧ copied_from r y.
Proof.
  unfold g2_normalize_one.
  destruct (g2_resolve_date r) as [[d|]|e]; unfold_result; [| |done].
  - destruct (within_range d start end_) as [[]|e]; unfold_result; intros [= <-].
    split; [apply r_copy_six_string_fields | apply r_copy_copied_from].
  - intros [= <-].
    split; [apply r_copy_six_string_fields | apply r_copy_copied_from].
Qed.

Lemma g2_final_one_same (start end_ : datetime) (r y : dict) :
  g2_final_one start end_ r = Ok (Some y) -> y = r.
Proof.
  unfold g2_final_one. destruct (truthy (get r "date")).
  - destruct (parse_date_safe _) as [p|]; unfold_result.
    + destruct (within_range p start end_) as [[]|e]; unfold_result; by intros [= <-].
    + by intros [= <-].
  - unfold_result. by intros [= <-].
Qed.

Lemma g2_filter_origin (start end_ : datetime) (all_reviews out : list dict)
    (y : dict) :
  g2_filter start end_ all_reviews = Ok out -> y ∈ out ->
  exists r, r ∈ all_reviews ∧ g2_normalize_one start end_ r = Ok (Some y) ∧
            g2_final_one start end_ y = Ok (Some y).
Proof.
  unfold g2_filter.
  destruct (for_append (g2_normalize_one start end_) all_reviews) as [normalized|e] eqn:H1;
    unfold_result; [|done].
  intros H2 Hy.
  destruct (for_append_origin _ _ _ _ H2 Hy) as (z & Hz & Hfin).
  pose proof (g2_final_one_same _ _ _ _ Hfin) as ->.
  destruct (for_append_origin _ _ _ _ H1 Hz) as (r & Hr & Hnorm).
  by exists r.
Qed.

Lemma le_naive (a b : datetime) :
  Datetime.naive a -> Datetime.naive b ->
  Datetime.le a b = Ok (leb_components a b).
Proof.
  unfold Datetime.naive, Datetime.le, Datetime.cmp, leb_components.
  intros -> ->. destruct (decide _) as [_|Hne]; [|done].
  unfold mbind, result_bind, mret, result_ret.
  by destruct (Datetime.cmp_tuple _ _).
Qed.

(** The range filter of Capterra and TrustRadius follows the policy of
    the specification when the bounds and every date that parses are
    naive. *)
Lemma dated_normalize_one_naive (source : string) (start end_ : datetime)
    (r : dict) :
  Datetime.naive start -> Datetime.naive end_ ->
  (forall d, parse_date_safe (or_empty (get r "date")) = Some d -> Datetime.naive d) ->
  dated_normalize_one source start end_ r = Ok (dated_policy source start end_ r).
Proof.
  intros Hs He Hd.
  unfold dated_normalize_one, dated_policy.
  destruct (parse_date_safe (or_empty (get r "date"))) as [d|]; [|done].
  specialize (Hd d eq_refl).
  unfold within_range. rewrite !le_naive by done.
  unfold mbind, result_bind, mret, result_ret.
  by destruct (leb_components start d), (leb_components d end_).
Qed.

Lemma range_filter_naive (source : string) (start end_ : datetime)
    (all_reviews : list dict) :
  Datetime.naive start -> Datetime.naive end_ ->
  (forall r d, r ∈ all_reviews ->
     parse_date_safe (or_empty (get r "date")) = Some d -> Datetime.naive d) ->
  for_append (dated_normalize_one source start end_) all_reviews
  = Ok (omap (dated_policy source start end_) all_reviews).
Proof.
  intros Hs He Hall. apply for_append_total. intros r Hr.
  apply dated_normalize_one_naive; [done..|]. intros d. by apply Hall.
Qed.

(** A comparison of a naive bound with an aware date raises. *)
Lemma within_range_mixed (d start end_ : datetime) (off : Z) :
  Datetime.naive start -> utcoffset d = Some off ->
  within_range d start end_ = Raise TypeError.
Proof.
  unfold Datetime.naive, within_range, Datetime.le, Datetime.cmp.
  intros -> ->. done.
Qed.

(** A G2 record whose date field and description both fail to parse is
    kept by each of the two passes, under its raw date. *)
Lemma g2_unparseable_passes (start end_ : datetime) (r : dict) :
  g2_resolve_date r = Ok None ->
  g2_normalize_one start end_ r = Ok (Some (r_copy r (or_empty (get r "date")) "G2")) ∧
  g2_final_one start end_ (r_copy r (or_empty (get r "date")) "G2")
  = Ok (Some (r_copy r (or_empty (get r "date")) "G2")).
Proof.
  intros Hres. split.
  - unfold g2_normalize_one. rewrite Hres. done.
  - unfold g2_final_one.
    change (get (r_copy r (or_empty (get r "date")) "G2") "date")
      with (PyStr (or_empty (get r "date"))).
    destruct (truthy _); [|done]. simpl.
    unfold g2_resolve_date in Hres.
    destruct (parse_date_safe (or_empty (get r "date"))); [discriminate | done].
Qed.

(** A G2 record whose resolved date lies outside the range is dropped by
    the first pass. *)
Lemma g2_out_of_range_dropped (start end_ d : datetime) (r : dict) :
  g2_resolve_date r = Ok (Some d) -> within_range d start end_ = Ok false ->
  g2_normalize_one start end_ r = Ok None.
Proof.
  intros Hres Hout. unfold g2_normalize_one. rewrite Hres. unfold_result.
  by rewrite Hout.
Qed.

End AdapterFacts.

Section AdapterTheorems.

Context `{Browser} `{DateParser}.

Lemma filters_emit_six_string_fields (start end_ : datetime)
    (all_reviews out : list dict) (r : dict) :
  g2_filter start end_ all_reviews = Ok out ∨
  capterra_filter start end_ all_reviews = Ok out ∨
  trustradius_filter start end_ all_reviews = Ok out ->
  r ∈ out ->
  six_string_fields r ∧ exists raw, raw ∈ all_reviews ∧ copied_from raw r.
Proof.
  intros [Hg2|[Hcap|Htr]] Hr.
  - destruct (g2_filter_origin _ _ _ _ _ Hg2 Hr) as (raw & Hraw & Hnorm & _).
    destruct (g2_normalize_one_shape _ _ _ _ Hnorm) as [Hsix Hcopy].
    split; [done | by exists raw].
  - destruct (for_append_origin _ _ _ _ Hcap Hr) as (raw & Hraw & Hnorm).
    destruct (dated_normalize_one_shape _ _ _ _ _ Hnorm) as [Hsix Hcopy].
    split; [done | by exists raw].
  - destruct (for_append_origin _ _ _ _ Htr Hr) as (raw & Hraw & Hnorm).
    destruct (dated_normalize_one_shape _ _ _ _ _ Hnorm) as [Hsix Hcopy].
    split; [done | by exists raw].
Qed.

(** C9. Every record an adapter emits has exactly the six fields title,
    description, date, rating, reviewer and source, each holding a string;
    title, description, rating and reviewer are the values of the
    collected record, an absent or null value becoming the empty string.
    This holds for the normalisation of any collected list and so for the
    three adapters on any page. *)
Theorem adapters_emit_six_string_fields (start end_ : datetime) :
  (forall all_reviews out r,
     g2_filter start end_ all_reviews = Ok out ∨
     capterra_filter start end_ all_reviews = Ok out ∨
     trustradius_filter start end_ all_reviews = Ok out ->
     r ∈ out ->
     six_string_fields r ∧
     exists raw, raw ∈ all_reviews ∧ copied_from raw r ∧
       forall k, k ∈ ["title"; "description"; "rating"; "reviewer"] ->
                 get raw k = PyNone -> r !! k = Some (PyStr ""))
  ∧
  (forall page company_slug out r,
     scrape_g2 page company_slug start end_ = Ok out ∨
     scrape_capterra page company_slug start end_ = Ok out ∨
     scrape_trustradius page company_slug start end_ = Ok out ->
     r ∈ out -> six_string_fields r).
Proof.
  split.
  - intros all_reviews out r Hout Hr.
    destruct (filters_emit_six_string_fields _ _ _ _ _ Hout Hr)
      as (Hsix & raw & Hraw & Hcopy).
    split; [done|]. exists raw. split; [done|]. split; [done|].
    intros k Hk Hnone. rewrite (Hcopy k Hk), Hnone. done.
  - intros page company_slug out r Hout Hr.
    unfold scrape_g2, scrape_capterra, scrape_trustradius in Hout.
    destruct Hout as [Hout|[Hout|Hout]].
    + destruct (goto_or_fail _ page) as [page1|e]; unfold_result; [|done].
      destruct (scroll_and_collect_default page1) as [all_reviews|e];
        unfold_result; [|done].
      apply (filters_emit_six_string_fields start end_ all_reviews out r); auto.
    + destruct (try_variants _ page) as [page1|e]; unfold_result; [|done].
      destruct (scroll_and_collect_default page1) as [all_reviews|e];
        unfold_result; [|done].
      apply (filters_emit_six_string_fields start end_ all_reviews out r); auto.
    + destruct (goto_or_fail _ page) as [page1|e]; unfold_result; [|done].
      destruct (scroll_and_collect_default page1) as [all_reviews|e];
        unfold_result; [|done].
      apply (filters_emit_six_string_fields start end_ all_reviews out r); auto.
Qed.

End AdapterTheorems.

Module AdapterSamples.

Import Sample.

(** A collected record without title and with a null description. *)
Lemma null_fields_witness :
  sparse_record ∈ [sparse_record] ∧
  capterra_filter (H:=iso8601) jan_1_2024 jun_30_2024 [sparse_record]
  = Ok [r_copy sparse_record "2024-03-15" "Capterra"] ∧
  six_string_fields (r_copy sparse_record "2024-03-15" "Capterra") ∧
  r_copy sparse_record "2024-03-15" "Capterra" !! "title" = Some (PyStr "") ∧
  r_copy sparse_record "2024-03-15" "Capterra" !! "description" = Some (PyStr "").
Proof.
  assert (capterra_filter (H:=iso8601) jan_1_2024 jun_30_2024 [sparse_record]
          = Ok [r_copy sparse_record "2024-03-15" "Capterra"]) as Hrun.
  { vm_compute. reflexivity. }
  assert (r_copy sparse_record "2024-03-15" "Capterra"
            ∈ [r_copy sparse_record "2024-03-15" "Capterra"]) as Hin.
  { apply list_elem_of_here. }
  split; [apply list_elem_of_here|]. split; [exact Hrun|].
  destruct (proj1 (@adapters_emit_six_string_fields barren iso8601
                      jan_1_2024 jun_30_2024)
                  [sparse_record] _ _ (or_intror (or_introl Hrun)) Hin)
    as (Hsix & raw & Hraw & Hcopy & Hnull).
  split; [exact Hsix|].
  apply list_elem_of_singleton in Hraw. subst raw.
  split.
  - apply Hnull; [apply list_elem_of_here | reflexivity].
  - apply Hnull; [apply list_elem_of_further, list_elem_of_here | reflexivity].
Defined.

(** C1. Failing input: a Capterra or TrustRadius page with three cards,
    dated 2024-03-15, 2024-03-15T10:00:00Z and undated, for the range
    2024-01-01 to 2024-06-30.  The three records are collected; the first
    date parses and lies in the range, the third does not parse, and the
    second parses to an aware value, whose comparison with the naive bound
    raises: the adapter raises [TypeError] and returns no record at all. *)
Theorem range_filter_raises_on_aware_date :
  let site := [[first_card; zoned_card; other_card]] in
  let B := browser (fun _ => true) site in
  let all_reviews := [Script.candidate_record first_card;
                      Script.candidate_record zoned_card;
                      Script.candidate_record other_card] in
  scroll_and_collect_default (H:=B) site = Ok all_reviews ∧
  (exists d, parse_date_safe (H:=iso8601) "2024-03-15" = Some d ∧
             within_range d jan_1_2024 jun_30_2024 = Ok true) ∧
  parse_date_safe (H:=iso8601) "" = None ∧
  capterra_filter (H:=iso8601) jan_1_2024 jun_30_2024 all_reviews = Raise TypeError ∧
  trustradius_filter (H:=iso8601) jan_1_2024 jun_30_2024 all_reviews
  = Raise TypeError ∧
  scrape_capterra (H:=B) (H0:=iso8601) [] "acme" jan_1_2024 jun_30_2024
  = Raise TypeError ∧
  scrape_trustradius (H:=B) (H0:=iso8601) [] "acme" jan_1_2024 jun_30_2024
  = Raise TypeError.
Proof.
  cbv zeta. split; [vm_compute; reflexivity|].
  split; [eexists; split; vm_compute; reflexivity|].
  repeat split; vm_compute; reflexivity.
Qed.

(** C2. Failing input: a G2 page with an undated card, whose description
    does not parse either, followed by a card dated 2024-03-15T10:00:00Z,
    for the range 2024-01-01 to 2024-06-30.  The undated record resolves
    to no date and would be kept by both passes, but the aware date of the
    other record raises in the comparison with the naive bound: the
    adapter raises [TypeError] and returns no record at all. *)
Theorem g2_filter_raises_on_aware_date :
  let site := [[other_card; zoned_card]] in
  let B := browser (fun _ => true) site in
  let all_reviews := [Script.candidate_record other_card;
                      Script.candidate_record zoned_card] in
  scroll_and_collect_default (H:=B) site = Ok all_reviews ∧
  g2_resolve_date (H:=iso8601) (Script.candidate_record other_card) = Ok None ∧
  g2_filter (H:=iso8601) jan_1_2024 jun_30_2024 all_reviews = Raise TypeError ∧
  scrape_g2 (H:=B) (H0:=iso8601) [] "acme" jan_1_2024 jun_30_2024 = Raise TypeError.
Proof.
  cbv zeta. repeat split; vm_compute; reflexivity.
Qed.

End AdapterSamples.

(** ** The file system *)

Section DiskFacts.

Import Os.

Lemma entry_at_snoc (d : Disk) (cur : list string) (c : string) :
  entry_at d (cur ++ [c]) = tree d !! (cur ++ [c]).
Proof. by destruct cur. Qed.

Lemma walk_app (d : Disk) (cur : list string) (l1 l2 : list string) :
  walk d cur (l1 ++ l2) = (c ← walk d cur l1; walk d c l2).
Proof.
  revert cur. induction l1 as [|c l1 IH]; intros cur; simpl; [done|].
  destruct (decide (c = "..")); [apply IH|].
  destruct (entry_at d (cur ++ [c])) as [[|?]|]; [apply IH | done | done].
Qed.

(** Putting an entry where no directory was does not disturb the
    resolution of a path. *)
Lemma walk_insert_stable (d : Disk) (q : list string) (e : entry)
    (names cur r : list string) :
  entry_at d q ≠ Some Dir ->
  walk d cur names = Ok r ->
  walk (mkDisk (cwd d) (<[q := e]> (tree d))) cur names = Ok r.
Proof.
  intros Hq. revert cur. induction names as [|c names IH]; intros cur; simpl; [done|].
  destruct (decide (c = "..")); [apply IH|].
  rewrite !entry_at_snoc. simpl.
  destruct (tree d !! (cur ++ [c])) as [[|?]|] eqn:Hc; [|done..].
  intros Hw. rewrite lookup_insert_ne.
  - rewrite Hc. by apply IH.
  - intros ->. apply Hq. by rewrite entry_at_snoc.
Qed.

Lemma parts_snoc (l : list string) :
  l ≠ [] -> l = removelast l ++ [List.last l ""].
Proof. apply app_removelast_last. Qed.

(** The resolution of a path with at least one part, through its parent. *)
Lemma walk_parts (d : Disk) (cur : list string) (l : list string) :
  l ≠ [] ->
  walk d cur l = (dir ← walk d cur (removelast l); walk d dir [List.last l ""]).
Proof. intros Hl. rewrite (parts_snoc l Hl) at 1. apply walk_app. Qed.

Lemma is_dir_parts (d : Disk) (p : PurePath) :
  parts p ≠ [] -> is_dir d p = true ->
  exists dir, walk d (start_dir d p) (removelast (parts p)) = Ok dir ∧
    (List.last (parts p) "" = ".." ∨
     entry_at d (dir ++ [List.last (parts p) ""]) = Some Dir).
Proof.
  intros Hne. unfold is_dir. rewrite (walk_parts _ _ _ Hne).
  destruct (walk d (start_dir d p) (removelast (parts p))) as [dir|e];
    unfold_result; [|done].
  intros Hw. exists dir. split; [done|].
  destruct (decide (List.last (parts p) "" = "..")); [by left | right].
  by destruct (entry_at d (dir ++ [List.last (parts p) ""])) as [[|?]|].
Qed.

Lemma is_dir_intro (d : Disk) (p : PurePath) (dir : list string) :
  parts p ≠ [] ->
  walk d (start_dir d p) (removelast (parts p)) = Ok dir ->
  List.last (parts p) "" = ".." ∨
  entry_at d (dir ++ [List.last (parts p) ""]) = Some Dir ->
  is_dir d p = true.
Proof.
  intros Hne Hw Hlast. unfold is_dir. rewrite (walk_parts _ _ _ Hne), Hw.
  unfold_result. destruct (decide (List.last (parts p) "" = "..")); [done|].
  destruct Hlast as [Hdots | ->]; done.
Qed.

(** [os.mkdir] on an existing directory raises [FileExistsError]. *)
Lemma mkdir_existing (d : Disk) (p : PurePath) :
  is_dir d p = true -> mkdir d p = Raise FileExistsError.
Proof.
  intros Hdir. unfold mkdir. destruct (parts p) as [|c l] eqn:Hp; [done|].
  rewrite <- Hp.
  destruct (is_dir_parts d p) as (dir & Hw & Hlast); [by rewrite Hp | done |].
  rewrite Hw. unfold_result.
  destruct (decide (List.last (parts p) "" = "..")); [done|].
  destruct Hlast as [Hdots | ->]; done.
Qed.

(** After [os.mkdir] the path is a directory. *)
Lemma mkdir_post (d d' : Disk) (p : PurePath) :
  mkdir d p = Ok d' -> is_dir d' p = true ∧ cwd d' = cwd d.
Proof.
  unfold mkdir. destruct (parts p) as [|c l] eqn:Hp; [done|]. rewrite <- Hp.
  destruct (walk d (start_dir d p) (removelast (parts p))) as [dir|e] eqn:Hw;
    unfold_result; [|done].
  destruct (decide (List.last (parts p) "" = "..")); [done|].
  destruct (entry_at d (dir ++ [List.last (parts p) ""])) eqn:Hent; [done|].
  intros [= <-]. split; [|done].
  apply (is_dir_intro _ p dir); [by rewrite Hp | |].
  - apply (walk_insert_stable d); [by rewrite Hent | done].
  - right. rewrite entry_at_snoc. simpl. apply lookup_insert_eq.
Qed.

Lemma mkdir_exist_ok_post (d d' : Disk) (p : PurePath) :
  mkdir_exist_ok d p = (d', None) -> is_dir d' p = true.
Proof.
  unfold mkdir_exist_ok. destruct (mkdir d p) as [d1|e] eqn:Hmk.
  - intros [= <-]. by apply mkdir_post in Hmk as [? _].
  - destruct e; try done; destruct (is_dir d p) eqn:Hdir; by intros [= <-].
Qed.

Lemma mkdir_parents_post (d d' : Disk) (anchored : bool) (rparts : list string) :
  mkdir_parents d anchored rparts = (d', None) ->
  is_dir d' (mkPath anchored (rev rparts)) = true.
Proof.
  destruct rparts as [|c rparent]; simpl.
  - destruct (mkdir d (mkPath anchored [])) as [d1|e] eqn:Hmk.
    + intros [= <-]. by apply mkdir_post in Hmk as [? _].
    + destruct e; try done;
        destruct (is_dir d (mkPath anchored [])) eqn:Hdir; by intros [= <-].
  - destruct (mkdir d (mkPath anchored (rev rparent ++ [c]))) as [d1|e] eqn:Hmk.
    + intros [= <-]. by apply mkdir_post in Hmk as [? _].
    + destruct e;
        try (destruct (is_dir d (mkPath anchored (rev rparent ++ [c]))) eqn:Hdir;
             by intros [= <-]).
      destruct (mkdir_parents d anchored rparent) as [d1 [e|]]; [done|].
      apply mkdir_exist_ok_post.
Qed.

Lemma path_eta (p : PurePath) : mkPath (absolute p) (rev (rev (parts p))) = p.
Proof. destruct p. simpl. by rewrite rev_involutive. Qed.

Lemma Path_mkdir_post (d d' : Disk) (p : PurePath) :
  Path_mkdir d p = (d', None) -> is_dir d' p = true.
Proof.
  unfold Path_mkdir. intros Hmk. apply mkdir_parents_post in Hmk.
  by rewrite path_eta in Hmk.
Qed.

Lemma Path_mkdir_existing (d : Disk) (p : PurePath) :
  is_dir d p = true -> Path_mkdir d p = (d, None).
Proof.
  intros Hdir. unfold Path_mkdir.
  pose proof (mkdir_existing d p Hdir) as Hmk.
  rewrite <- (path_eta p) in Hmk, Hdir.
  destruct (rev (parts p)) as [|c rparent]; simpl in *; by rewrite ?Hmk, ?Hdir.
Qed.

Lemma write_file_post (d d' : Disk) (p q : PurePath) (c : content) :
  write_file d p c = Ok d' ->
  lookup d' p = Some (File c) ∧ (is_dir d q = true -> is_dir d' q = true).
Proof.
  unfold write_file, lookup. destruct (parts p) as [|c0 l] eqn:Hp; [done|].
  rewrite <- Hp.
  destruct (walk d (start_dir d p) (removelast (parts p))) as [dir|e] eqn:Hw;
    unfold_result; [|done].
  destruct (decide (List.last (parts p) "" = "..")); [done|].
  destruct (entry_at d (dir ++ [List.last (parts p) ""])) as [[|c1]|] eqn:Hent;
    [done| |]; intros [= <-]; (split;
    [ change (start_dir _ p) with (start_dir d p);
      rewrite (walk_insert_stable d _ _ _ _ dir) by (by rewrite ?Hent);
      rewrite entry_at_snoc; simpl; apply lookup_insert_eq
    | unfold is_dir; change (start_dir _ q) with (start_dir d q);
      destruct (walk d (start_dir d q) (parts q)) as [r|] eqn:Hq; [|done];
      intros _; by rewrite (walk_insert_stable d _ _ _ _ r) by (by rewrite ?Hent) ]).
Qed.

End DiskFacts.

Section DirectoriesOnly.

Import Os.

Lemma walk_no_files (d : Disk) (names cur : list string) (e : exn) :
  no_files d -> walk d cur names = Raise e -> e = FileNotFoundError.
Proof.
  intros Hnf. revert cur. induction names as [|c names IH]; intros cur; simpl; [done|].
  destruct (decide (c = "..")); [apply IH|].
  rewrite entry_at_snoc.
  destruct (tree d !! (cur ++ [c])) as [[|f]|] eqn:Hc.
  - apply IH.
  - by destruct (Hnf _ _ Hc).
  - by intros [= <-].
Qed.

(** The three outcomes of [os.mkdir] on a disk of directories. *)
Lemma mkdir_no_files (d : Disk) (p : PurePath) :
  no_files d ->
  (exists d', mkdir d p = Ok d' ∧ no_files d') ∨
  (mkdir d p = Raise FileNotFoundError ∧
   walk d (start_dir d p) (removelast (parts p)) = Raise FileNotFoundError) ∨
  (mkdir d p = Raise FileExistsError ∧ is_dir d p = true).
Proof.
  intros Hnf. unfold mkdir. destruct (parts p) as [|c0 l] eqn:Hp.
  { right. right. split; [done|]. unfold is_dir. by rewrite Hp. }
  rewrite <- Hp. assert (parts p ≠ []) as Hne by (by rewrite Hp).
  destruct (walk d (start_dir d p) (removelast (parts p))) as [dir|e] eqn:Hw;
    unfold_result.
  - destruct (decide (List.last (parts p) "" = "..")) as [Hdots|Hname].
    { right. right. split; [done|]. apply (is_dir_intro d p dir); auto. }
    destruct (entry_at d (dir ++ [List.last (parts p) ""])) as [[|f]|] eqn:Hent.
    + right. right. split; [done|]. apply (is_dir_intro d p dir); auto.
    + rewrite entry_at_snoc in Hent. by destruct (Hnf _ _ Hent).
    + left. eexists. split; [done|]. intros q c. simpl.
      destruct (decide (dir ++ [List.last (parts p) ""] = q)) as [<-|Hq].
      * by rewrite lookup_insert_eq.
      * rewrite lookup_insert_ne by done. apply Hnf.
  - right. left. by rewrite (walk_no_files d _ _ e Hnf Hw).
Qed.

Lemma removelast_snoc (l : list string) (c : string) : removelast (l ++ [c]) = l.
Proof. apply removelast_last. Qed.

Lemma mkdir_parents_no_files (anchored : bool) (rparts : list string) (d : Disk) :
  no_files d ->
  exists d', mkdir_parents d anchored rparts = (d', None) ∧ no_files d'.
Proof.
  revert d. induction rparts as [|c rparent IH]; intros d Hnf.
  - simpl. exists d. split; [|done]. unfold is_dir. done.
  - simpl.
    destruct (mkdir_no_files d (mkPath anchored (rev rparent ++ [c])) Hnf)
      as [(d' & -> & Hnf')|[[-> _]|[-> ->]]].
    + by exists d'.
    + destruct (IH d Hnf) as (d1 & Hpar & Hnf1). rewrite Hpar.
      pose proof (mkdir_parents_post _ _ _ _ Hpar) as Hdir1.
      unfold mkdir_exist_ok.
      destruct (mkdir_no_files d1 (mkPath anchored (rev rparent ++ [c])) Hnf1)
        as [(d' & -> & Hnf')|[[_ Hw]|[-> ->]]].
      * by exists d'.
      * exfalso. simpl in Hw. rewrite removelast_snoc in Hw.
        unfold is_dir in Hdir1. simpl in Hdir1.
        change (start_dir d1 {| absolute := anchored; parts := rev rparent ++ [c] |})
          with (start_dir d1 {| absolute := anchored; parts := rev rparent |}) in Hw.
        by rewrite Hw in Hdir1.
      * by exists d1.
    + by exists d.
Qed.

Lemma Path_mkdir_no_files (d : Disk) (p : PurePath) :
  no_files d ->
  exists d', Path_mkdir d p = (d', None) ∧ is_dir d' p = true.
Proof.
  intros Hnf. unfold Path_mkdir.
  destruct (mkdir_parents_no_files (absolute p) (rev (parts p)) d Hnf)
    as (d' & Hmk & _).
  exists d'. split; [done|]. apply (Path_mkdir_post d). exact Hmk.
Qed.

End DirectoriesOnly.

(** ** The orchestrator and the command line *)

Section OrchestratorTheorems.

Context `{Browser} `{DateParser}.

(** What a run that returns went through. *)
Lemma run_scraper_returns (company start_date end_date source outdir : string)
    (d d2 : Disk) (outpath : PurePath) (reviews : list dict) :
  run_scraper company start_date end_date source outdir d
  = (d2, Ok (outpath, reviews)) ->
  exists d1,
    Os.Path_mkdir d (Os.Path outdir) = (d1, None) ∧
    Os.write_file d1 outpath (JsonDump reviews) = Ok d2.
Proof.
  unfold run_scraper.
  destruct (dateparser_parse start_date) as [start|e]; unfold_result; [|done].
  destruct (dateparser_parse end_date) as [end_|e]; unfold_result; [|done].
  destruct (Datetime.gt start end_) as [[]|e]; [done| |done].
  destruct launch as [page|e]; unfold_result; [|done].
  destruct (dispatch page company start end_ (Str.lower source)) as [rs|e]; [|done].
  destruct (Os.Path_mkdir d (Os.Path outdir)) as [d1 [e|]]; [done|].
  destruct (Os.write_file d1 _ (JsonDump rs)) as [d2'|e] eqn:Hw; [|done].
  intros [= <- <- <-]. by exists d1.
Qed.

(** C10. A run that returns has made the output directory before it
    wrote the file: [mkdir] returned without exception, after it the
    directory (hence each of its parents) exists, the file was written on
    that disk, and the directory is still there at the end, with the file
    holding the reviews.  An output directory that already exists makes
    [mkdir] return without exception and without change.  On a disk of
    directories, [mkdir] always returns without exception and makes the
    directory, missing parents included. *)
Theorem output_directory_made_before_writing
    (company start_date end_date source outdir : string) (d : Disk) :
  (forall d2 outpath reviews,
     run_scraper company start_date end_date source outdir d
     = (d2, Ok (outpath, reviews)) ->
     exists d1,
       Os.Path_mkdir d (Os.Path outdir) = (d1, None) ∧
       Os.is_dir d1 (Os.Path outdir) = true ∧
       Os.write_file d1 outpath (JsonDump reviews) = Ok d2 ∧
       Os.is_dir d2 (Os.Path outdir) = true ∧
       Os.lookup d2 outpath = Some (File (JsonDump reviews))) ∧
  (Os.is_dir d (Os.Path outdir) = true ->
   Os.Path_mkdir d (Os.Path outdir) = (d, None)) ∧
  (Os.no_files d ->
   exists d1, Os.Path_mkdir d (Os.Path outdir) = (d1, None) ∧
              Os.is_dir d1 (Os.Path outdir) = true).
Proof.
  split; [|split].
  - intros d2 outpath reviews Hrun.
    destruct (run_scraper_returns _ _ _ _ _ _ _ _ _ Hrun) as (d1 & Hmk & Hw).
    pose proof (Path_mkdir_post _ _ _ Hmk) as Hdir.
    destruct (write_file_post _ _ _ (Os.Path outdir) _ Hw) as [Hfile Hkeep].
    exists d1. repeat split; auto.
  - apply Path_mkdir_existing.
  - apply Path_mkdir_no_files.
Qed.

(** A call of [run_scraper] with a source that is none of the supported
    names raises [ValueError] once the dates are validated and the browser
    is launched, and writes nothing. *)
Lemma run_scraper_unsupported_source
    (company start_date end_date source outdir : string) (d : Disk)
    (start end_ : datetime) (page : Page) :
  dateparser_parse start_date = Ok start ->
  dateparser_parse end_date = Ok end_ ->
  Datetime.gt start end_ = Ok false ->
  launch = Ok page ->
  Str.lower source ∉ ["g2"; "capterra"; "trustradius"; "trust radius"; "trust-radius"] ->
  run_scraper company start_date end_date source outdir d = (d, Raise ValueError).
Proof.
  intros Hs He Hgt Hl Hsrc. unfold run_scraper. rewrite Hs, He. unfold_result.
  rewrite Hgt, Hl. unfold dispatch.
  rewrite !not_elem_of_cons in Hsrc. destruct Hsrc as (H1 & H2 & H3 & H4 & H5 & _).
  destruct (decide (Str.lower source = "g2")); [done|].
  destruct (decide (Str.lower source = "capterra")); [done|].
  destruct (decide (Str.lower source ∈ _)) as [Hin|]; [|done].
  rewrite !elem_of_cons in Hin. destruct Hin as [?|[?|[?|Hin]]]; [done..|].
  by apply elem_of_nil in Hin.
Qed.

(** C8, as the code has it. A value of [--source] that is not among the
    choices of the option ends the process with status 2, in the parsing
    of the arguments, before [run_scraper] is called; the disk is left as
    it was, so no file is written. *)
Theorem unsupported_source_exits_with_status_2 (cl : CommandLine) (d : Disk)
    (s : string) :
  opt_source cl = Some s -> s ∉ source_choices -> main cl d = (2, d).
Proof.
  intros Hs Hnot. unfold main, parse_args, source_rejected. rewrite Hs.
  by rewrite bool_decide_eq_true_2.
Qed.

End OrchestratorTheorems.

Module OrchestratorSamples.

Import Sample.

(** C8 as stated fails on [--source foo]: the exit status is not 1. *)
Lemma unsupported_source_status_is_not_1 :
  ¬ ((main (H:=barren) (H0:=iso8601) foo_command empty_disk).1 = 1 ∧
     Os.files (main (H:=barren) (H0:=iso8601) foo_command empty_disk).2
     = Os.files empty_disk).
Proof. intros [Hstatus _]. vm_compute in Hstatus. discriminate. Qed.

Lemma unsupported_source_witness :
  opt_source foo_command = Some "foo" ∧ ("foo" ∉ source_choices) ∧
  main (H:=barren) (H0:=iso8601) foo_command empty_disk = (2, empty_disk).
Proof.
  assert ("foo" ∉ source_choices) as Hnot.
  { unfold source_choices. rewrite !not_elem_of_cons.
    repeat split; [done..|]. apply not_elem_of_nil. }
  split; [reflexivity|]. split; [exact Hnot|].
  exact (unsupported_source_exits_with_status_2 (H:=barren) (H0:=iso8601)
           foo_command empty_disk "foo" eq_refl Hnot).
Defined.

(** A run for G2 into [out/2024/reviews] on an empty disk: the three
    directories are made and the file is written in the last one. *)
Lemma output_directory_witness :
  exists d2 outpath reviews,
    run_scraper (H:=browser (fun _ => true) growing_site) (H0:=iso8601)
      "zoho-crm" "2024-01-01" "2024-06-30" "g2" "out/2024/reviews" empty_disk
    = (d2, Ok (outpath, reviews)) ∧
    Os.is_dir empty_disk (Os.Path "out/2024/reviews") = false ∧
    Os.is_dir d2 (Os.Path "out/2024/reviews") = true ∧
    Os.lookup d2 outpath = Some (File (JsonDump reviews)).
Proof.
  destruct (run_scraper (H:=browser (fun _ => true) growing_site) (H0:=iso8601)
              "zoho-crm" "2024-01-01" "2024-06-30" "g2" "out/2024/reviews"
              empty_disk) as [d2 [[outpath reviews]|e]] eqn:Hrun;
    [|vm_compute in Hrun; discriminate].
  exists d2, outpath, reviews. split; [reflexivity|]. split; [reflexivity|].
  destruct (proj1 (output_directory_made_before_writing
                     (H:=browser (fun _ => true) growing_site) (H0:=iso8601)
                     "zoho-crm" "2024-01-01" "2024-06-30" "g2"
                     "out/2024/reviews" empty_disk)
                  d2 outpath reviews Hrun)
    as (d1 & _ & _ & _ & Hdir & Hfile).
  split; [exact Hdir | exact Hfile].
Defined.

End OrchestratorSamples.

(** * Further properties *)

(** ** The collector: keys, origin of the records, progress *)

Section CollectorKeys.

Context `{Browser}.

Lemma acc_inv_empty : acc_inv [] ∅.
Proof.
  split.
  - intros k. split; [set_solver|]. intros (r & Hr & _). by apply elem_of_nil in Hr.
  - apply NoDup_nil_2.
  - intros r Hr. by apply elem_of_nil in Hr.
Qed.

Lemma merge_one_inv (a a' : Accum) (r : dict) :
  acc_inv (collected a) (seen_keys a) ->
  merge_one a r = Ok a' ->
  acc_inv (collected a') (seen_keys a') ∧
  (exists k, collect_key r = Ok k ∧ k ∈ seen_keys a') ∧
  (forall x, x ∈ collected a' -> x ∈ collected a ∨ x = r) ∧
  seen_keys a ⊆ seen_keys a'.
Proof.
  intros [Hseen Hnd Hok]. unfold merge_one.
  destruct (collect_key r) as [k|e] eqn:Hk; unfold_result; [|done].
  destruct (decide (k ∈ seen_keys a)) as [Hin|Hnin]; intros [= <-]; simpl.
  - split; [done|]. split; [by exists k|]. split; [by left | done].
  - split; [split|].
    + intros k'. rewrite elem_of_union, elem_of_singleton, Hseen. split.
      * intros [->|(x & Hx & Hkx)].
        -- exists r. split; [|done]. apply elem_of_app. right. by left.
        -- exists x. split; [|done]. apply elem_of_app. by left.
      * intros (x & Hx & Hkx). apply elem_of_app in Hx as [Hx|Hx].
        -- right. by exists x.
        -- apply list_elem_of_singleton in Hx. subst x. left. congruence.
    + rewrite fmap_app. apply NoDup_app. split; [done|]. split.
      * intros y Hy Hy'. simpl in Hy'. apply list_elem_of_singleton in Hy'.
        subst y. apply list_elem_of_fmap in Hy as (x & Hkx & Hx).
        apply Hnin, Hseen. exists x. split; [done|]. congruence.
      * apply NoDup_singleton.
    + intros x Hx. apply elem_of_app in Hx as [Hx|Hx]; [by apply Hok|].
      apply list_elem_of_singleton in Hx. subst x. by exists k.
    + split; [exists k; split; [done | apply elem_of_union; left; by apply elem_of_singleton]|].
      split; [|apply union_subseteq_r].
      intros x Hx. apply elem_of_app in Hx as [Hx|Hx]; [by left|].
      apply list_elem_of_singleton in Hx. by right.
Qed.

Lemma merge_found_inv (found : list dict) (a a' : Accum) :
  acc_inv (collected a) (seen_keys a) ->
  merge_found a found = Ok a' ->
  acc_inv (collected a') (seen_keys a') ∧
  (forall r, r ∈ found -> exists k, collect_key r = Ok k ∧ k ∈ seen_keys a') ∧
  (forall x, x ∈ collected a' -> x ∈ collected a ∨ x ∈ found) ∧
  seen_keys a ⊆ seen_keys a'.
Proof.
  revert a. induction found as [|r found IH]; intros a Hinv; simpl.
  - intros [= <-]. split; [done|]. split; [|split; [by left | done]].
    intros r Hr. by apply elem_of_nil in Hr.
  - destruct (merge_one a r) as [a1|e] eqn:H1; unfold_result; [|done].
    intros H2.
    destruct (merge_one_inv a a1 r Hinv H1) as (Hinv1 & (k & Hk & Hkin) & Hor1 & Hsub1).
    destruct (IH a1 Hinv1 H2) as (Hinv' & Hkeys & Hor & Hsub).
    split; [done|]. split; [|split].
    + intros x Hx. apply elem_of_cons in Hx as [->|Hx]; [|by apply Hkeys].
      exists k. split; [done|]. by apply Hsub.
    + intros x Hx. destruct (Hor x Hx) as [Hx1|Hx1].
      * destruct (Hor1 x Hx1) as [Hx0 | ->]; [by left|]. right. by left.
      * right. by right.
    + by etrans.
Qed.

Lemma scroll_loop_keys (n : nat) (wait_ms : Z) (page : Page) (c0 : list dict)
    (s0 : gset string) (last_len : nat) (rounds : list Round) (l : list dict) :
  acc_inv c0 s0 ->
  scroll_loop n wait_ms page c0 s0 last_len = (rounds, Ok l) ->
  (length rounds <= n)%nat ∧
  exists s, acc_inv l s ∧
    (forall r, r ∈ l ->
       r ∈ c0 ∨ exists i, (i < length rounds)%nat ∧
                          r ∈ extract_reviews_from_dom (page_after wait_ms i page)) ∧
    (forall i r, (i < length rounds)%nat ->
       r ∈ extract_reviews_from_dom (page_after wait_ms i page) ->
       exists k, collect_key r = Ok k ∧ k ∈ s).
Proof.
  revert page c0 s0 last_len rounds l.
  induction n as [|n IH]; intros page c0 s0 last_len rounds l Hinv; simpl.
  - intros [= <- <-]. split; [done|]. exists s0. split; [done|].
    split; [by left|]. intros i r Hi. simpl in Hi. lia.
  - destruct (merge_found _ _) as [a|e] eqn:Hm; [|done].
    destruct (merge_found_inv _ (mkAccum c0 s0 0) a Hinv Hm)
      as (Hinva & Hkeys & Hor & Hsub).
    simpl in *.
    destruct (paginate wait_ms page) as [page' raised] eqn:Hpag.
    pose proof (f_equal fst Hpag) as Hp. simpl in Hp. subst page'.
    destruct raised as [e|]; [done|].
    destruct (_ && _).
    + intros [= <- <-]. split; [simpl; lia|]. exists (seen_keys a).
      split; [done|]. split.
      * intros r Hr. destruct (Hor r Hr) as [?|Hf]; [by left|].
        right. exists 0%nat. split; [simpl; lia | done].
      * intros i r Hi Hr. simpl in Hi. assert (i = 0%nat) as -> by lia.
        by apply Hkeys.
    + destruct (scroll_loop n _ _ _ _ _) as [rounds' res'] eqn:Hrec.
      intros [= <- ->].
      destruct (IH _ _ _ _ _ _ Hinva Hrec) as (Hlen & s & Hinvl & Horig & Hcomp).
      split; [simpl; lia|]. exists s. split; [done|]. split.
      * intros r Hr. destruct (Horig r Hr) as [Hr1|(i & Hi & Hri)].
        -- destruct (Hor r Hr1) as [?|Hf]; [by left|].
           right. exists 0%nat. split; [simpl; lia | done].
        -- right. exists (S i). split; [simpl; lia|].
           by rewrite <- page_after_succ.
      * intros i r Hi Hr. destruct i as [|i].
        -- destruct (Hkeys r Hr) as (k & Hk & Hkin).
           exists k. split; [done|].
           destruct Hinvl as [Hseenl _ _]. destruct Hinva as [Hseena _ _].
           apply Hseenl. apply Hseena in Hkin as (x & Hx & Hkx).
           exists x. split; [|done].
           pose proof (scroll_loop_shape n wait_ms (paginate wait_ms page).1
                         (collected a) (seen_keys a)) as Hshape.
           rewrite Hrec in Hshape. simpl in Hshape.
           destruct (run_shape_returned _ _ _ l Hshape eq_refl) as (Hpre & _).
           destruct Hpre as [k' ->]. apply elem_of_app. by left.
        -- apply (Hcomp i); [simpl in Hi; lia|]. by rewrite page_after_succ.
Qed.

Lemma scroll_rounds_returned (page : Page) (max_scrolls : nat) (wait_ms : Z)
    (l : list dict) :
  scroll_and_collect page max_scrolls wait_ms = Ok l ->
  scroll_rounds page max_scrolls wait_ms
  = ((scroll_rounds page max_scrolls wait_ms).1, Ok l).
Proof.
  unfold scroll_and_collect.
  destruct (scroll_rounds page max_scrolls wait_ms) as [rounds res]. simpl.
  by intros ->.
Qed.

(** X1. A list the collector returns has no two records with the same
    key (title, bar, first 120 characters of the description), and the
    key of each of its records is defined. *)
Theorem collector_result_has_distinct_keys (page : Page) (max_scrolls : nat)
    (wait_ms : Z) (l : list dict) :
  scroll_and_collect page max_scrolls wait_ms = Ok l ->
  NoDup (collect_key <$> l) ∧
  Forall (fun r => is_ok (collect_key r) = true) l.
Proof.
  intros Hl. apply scroll_rounds_returned in Hl.
  destruct (scroll_loop_keys _ _ _ _ _ _ _ _ acc_inv_empty Hl)
    as (_ & s & [_ Hnd Hok] & _).
  split; [done|]. apply Forall_forall. intros r Hr.
  destruct (Hok r Hr) as [k ->]. done.
Qed.

(** X2. Every record the collector returns was extracted from the page
    in one of the iterations that ran, that is from the page after fewer
    than [max_scrolls] paginations; with [max_scrolls = 0] nothing is
    returned. *)
Theorem collector_returns_extracted_records (page : Page) (max_scrolls : nat)
    (wait_ms : Z) (l : list dict) (r : dict) :
  scroll_and_collect page max_scrolls wait_ms = Ok l -> r ∈ l ->
  exists i, (i < length (scroll_rounds page max_scrolls wait_ms).1)%nat ∧
            (i < max_scrolls)%nat ∧
            r ∈ extract_reviews_from_dom (page_after wait_ms i page).
Proof.
  intros Hl Hr. apply scroll_rounds_returned in Hl.
  destruct (scroll_loop_keys _ _ _ _ _ _ _ _ acc_inv_empty Hl)
    as (Hlen & s & _ & Horig & _).
  destruct (Horig r Hr) as [Hnil|(i & Hi & Hri)]; [by apply elem_of_nil in Hnil|].
  exists i. split; [done|]. split; [lia | done].
Qed.

(** X3. Nothing extracted in an iteration that ran is lost: for every
    record extracted from the page after [i] paginations, [i] below the
    number of iterations, the returned list holds a record of the same
    key. *)
Theorem collector_keeps_one_record_per_key (page : Page) (max_scrolls : nat)
    (wait_ms : Z) (l : list dict) (i : nat) (r : dict) :
  scroll_and_collect page max_scrolls wait_ms = Ok l ->
  (i < length (scroll_rounds page max_scrolls wait_ms).1)%nat ->
  r ∈ extract_reviews_from_dom (page_after wait_ms i page) ->
  exists r', r' ∈ l ∧ collect_key r' = collect_key r.
Proof.
  intros Hl Hi Hr. apply scroll_rounds_returned in Hl.
  destruct (scroll_loop_keys _ _ _ _ _ _ _ _ acc_inv_empty Hl)
    as (_ & s & [Hseen _ _] & _ & Hcomp).
  destruct (Hcomp i r Hi Hr) as (k & Hk & Hkin).
  apply Hseen in Hkin as (r' & Hr' & Hkr').
  exists r'. split; [done | congruence].
Qed.

Lemma run_shape_progress (rounds : list Round) (before : list dict)
    (res : result (list dict)) :
  run_shape before rounds res ->
  (forall i rd, rounds !! i = Some rd -> (S i < length rounds)%nat ->
                (0 < r_new_count rd)%nat) ∧
  (length rounds <= S (sum_list (r_new_count <$> rounds)))%nat ∧
  (forall l, res = Ok l ->
             length l = (length before + sum_list (r_new_count <$> rounds))%nat).
Proof.
  revert before. induction rounds as [|rd rounds IH]; intros before Hs.
  - simpl in *. subst res. split; [done|]. split; [lia|].
    intros l [= <-]. lia.
  - destruct Hs as (_ & _ & Hlen & Hrest).
    destruct (r_raised rd) as [e|].
    + destruct Hrest as [-> ->]. split; [|split; [simpl; lia | done]].
      intros i rd' Hi Hlast. simpl in Hlast. lia.
    + destruct Hrest as [Hstop Hrest].
      destruct (IH _ Hrest) as (Hpos & Hbound & Hl).
      rewrite fmap_cons. simpl. split; [|split].
      * intros i rd' Hi Hlast. destruct i as [|i]; simpl in *.
        -- injection Hi as <-. destruct (r_new_count rd) eqn:Hz; [|lia].
           rewrite (Hstop eq_refl) in Hlast. simpl in Hlast. lia.
        -- apply (Hpos i); [done | lia].
      * destruct (r_new_count rd) eqn:Hz; [|lia].
        rewrite (Hstop eq_refl). simpl. lia.
      * intros l Hres. rewrite (Hl l Hres). lia.
Qed.

(** X4. The collector stops at the first iteration that adds nothing:
    every iteration but the last one added at least one record, so the
    loop ran at most one iteration more than it counted new records.  The
    length of a list it returns is the sum of the counts of new records,
    so the loop then ran at most one iteration more than it returns
    records. *)
Theorem collector_progress (page : Page) (max_scrolls : nat) (wait_ms : Z) :
  (forall i rd,
     (scroll_rounds page max_scrolls wait_ms).1 !! i = Some rd ->
     (S i < length (scroll_rounds page max_scrolls wait_ms).1)%nat ->
     (0 < r_new_count rd)%nat) ∧
  (length (scroll_rounds page max_scrolls wait_ms).1
   <= S (sum_list (r_new_count <$> (scroll_rounds page max_scrolls wait_ms).1)))%nat ∧
  (forall l,
     scroll_and_collect page max_scrolls wait_ms = Ok l ->
     length l = sum_list (r_new_count <$> (scroll_rounds page max_scrolls wait_ms).1) ∧
     (length (scroll_rounds page max_scrolls wait_ms).1 <= S (length l))%nat).
Proof.
  pose proof (scroll_loop_shape max_scrolls wait_ms page [] ∅) as Hshape.
  change (length (@nil dict)) with 0%nat in Hshape.
  destruct (run_shape_progress _ _ _ Hshape) as (Hpos & Hbound & Hlen).
  split; [done|]. split; [done|].
  intros l Hl. specialize (Hlen l Hl). simpl in Hlen.
  unfold scroll_rounds in *. split; [done | lia].
Qed.

End CollectorKeys.

Module CollectorKeySamples.

Import Sample.

Lemma growing_site_result :
  scroll_and_collect (H:=browser (fun _ => true) growing_site) growing_site 40 800
  = Ok [Script.candidate_record first_card; Script.candidate_record other_card].
Proof. vm_compute. reflexivity. Qed.

Lemma growing_site_rounds :
  length (scroll_rounds (H:=browser (fun _ => true) growing_site)
            growing_site 40 800).1 = 3%nat.
Proof. vm_compute. reflexivity. Qed.

Lemma growing_site_second_document :
  extract_reviews_from_dom (H:=browser (fun _ => true) growing_site)
    (page_after (H:=browser (fun _ => true) growing_site) 800 1 growing_site)
  = [Script.candidate_record first_card; Script.candidate_record other_card].
Proof. vm_compute. reflexivity. Qed.

Lemma collector_keys_witness :
  NoDup (collect_key <$> [Script.candidate_record first_card;
                          Script.candidate_record other_card]) ∧
  Forall (fun r => is_ok (collect_key r) = true)
         [Script.candidate_record first_card; Script.candidate_record other_card].
Proof.
  exact (collector_result_has_distinct_keys
           (H:=browser (fun _ => true) growing_site) growing_site 40 800
           _ growing_site_result).
Defined.

Lemma collector_origin_witness :
  exists i,
    (i < length (scroll_rounds (H:=browser (fun _ => true) growing_site)
                   growing_site 40 800).1)%nat ∧
    (i < 40)%nat ∧
    Script.candidate_record other_card
      ∈ extract_reviews_from_dom (H:=browser (fun _ => true) growing_site)
          (page_after (H:=browser (fun _ => true) growing_site) 800 i growing_site).
Proof.
  apply (collector_returns_extracted_records
           (H:=browser (fun _ => true) growing_site) growing_site 40 800
           _ _ growing_site_result).
  apply list_elem_of_further, list_elem_of_here.
Defined.

Lemma collector_completeness_witness :
  exists r',
    r' ∈ [Script.candidate_record first_card; Script.candidate_record other_card] ∧
    collect_key r' = collect_key (Script.candidate_record other_card).
Proof.
  apply (collector_keeps_one_record_per_key
           (H:=browser (fun _ => true) growing_site) growing_site 40 800
           _ 1%nat _ growing_site_result).
  - rewrite growing_site_rounds. lia.
  - rewrite growing_site_second_document.
    apply list_elem_of_further, list_elem_of_here.
Defined.

Lemma collector_progress_witness :
  exists rd,
    (scroll_rounds (H:=browser (fun _ => true) growing_site) growing_site 40 800).1
      !! 0%nat = Some rd ∧
    (0 < r_new_count rd)%nat.
Proof.
  destruct ((scroll_rounds (H:=browser (fun _ => true) growing_site)
               growing_site 40 800).1 !! 0%nat) as [rd|] eqn:H0;
    [|vm_compute in H0; discriminate].
  exists rd. split; [reflexivity|].
  apply (proj1 (collector_progress (H:=browser (fun _ => true) growing_site)
                  growing_site 40 800) 0%nat rd H0).
  rewrite growing_site_rounds. lia.
Defined.

End CollectorKeySamples.

(** ** The pagination step: what it lets through *)

Section Pagination.

Context `{Browser}.

Lemma scroll_and_wait_raised (wait_ms : Z) (page p : Page) (e : exn) :
  scroll_and_wait wait_ms page = (p, Some e) ->
  (exists q, (scroll_to_bottom q).2 = Some e) ∨
  (exists q, (wait_for_timeout wait_ms q).2 = Some e).
Proof.
  unfold scroll_and_wait. destruct (scroll_to_bottom page) as [q [e'|]] eqn:Hs.
  - intros [= <- <-]. left. exists page. by rewrite Hs.
  - intros Hw. right. exists q. by rewrite Hw.
Qed.

Lemma paginate_try_raised (wait_ms : Z) (page p : Page) (e : exn) :
  paginate_try wait_ms page = (p, Some e) ->
  query_selector page = Raise e ∨
  (exists q, (scroll_to_bottom q).2 = Some e) ∨
  (exists q, (wait_for_timeout wait_ms q).2 = Some e).
Proof.
  unfold paginate_try. destruct (query_selector page) as [[]|e'].
  - destruct (click_and_wait wait_ms page) as [p1 [e1|]]; [|done].
    intros Hs. right. by apply (scroll_and_wait_raised _ _ _ _ Hs).
  - intros Hs. right. by apply (scroll_and_wait_raised _ _ _ _ Hs).
  - intros [= <- <-]. by left.
Qed.

(** X23. An exception that leaves the pagination step, and with it the
    collector, was raised by the query for the control, by the scroll or
    by a wait, and never by the click, whose exceptions are answered by
    the scroll; when it was raised by the query or by the scroll it is
    not a timeout, a timeout being answered by one more wait.  When the
    query finds a control and the click and its wait raise nothing, the
    step raises nothing. *)
Theorem pagination_exceptions (wait_ms : Z) (page : Page) :
  (forall e,
     (paginate wait_ms page).2 = Some e ->
     (query_selector page = Raise e ∧ e ≠ PWTimeoutError) ∨
     (exists q, (scroll_to_bottom q).2 = Some e ∧ e ≠ PWTimeoutError) ∨
     (exists q, (wait_for_timeout wait_ms q).2 = Some e)) ∧
  (forall p,
     query_selector page = Ok true -> click_and_wait wait_ms page = (p, None) ->
     paginate wait_ms page = (p, None)).
Proof.
  split.
  - intros e. unfold paginate.
    destruct (paginate_try wait_ms page) as [p [e'|]] eqn:Htry; [|done].
    destruct (decide (e' = PWTimeoutError)) as [->|Hne].
    + intros Hw. right. right. by exists p.
    + assert ((p, Some e') = (p, Some e) -> e' = e) as Hsame by (by intros [= ->]).
      intros He. assert (e' = e) as <-.
      { apply Hsame. f_equal. by destruct e'. }
      destruct (paginate_try_raised _ _ _ _ Htry) as [Hq|[[q Hq]|Hw]].
      * by left.
      * right. left. by exists q.
      * by right; right.
  - intros p Hq Hc. unfold paginate, paginate_try. by rewrite Hq, Hc.
Qed.

End Pagination.

Module PaginationSamples.

Import Sample.

(** On a closed page the error of the query leaves the step. *)
Lemma pagination_exception_witness :
  (query_selector (Browser:=crashing) tt = Raise PlaywrightError
   ∧ PlaywrightError ≠ PWTimeoutError) ∨
  (exists q, (scroll_to_bottom (Browser:=crashing) q).2 = Some PlaywrightError
             ∧ PlaywrightError ≠ PWTimeoutError) ∨
  (exists q, (wait_for_timeout (Browser:=crashing) 800 q).2 = Some PlaywrightError).
Proof.
  exact (proj1 (pagination_exceptions (H:=crashing) 800 tt)
               PlaywrightError eq_refl).
Defined.

(** A control that cannot be clicked and waits that time out once: the
    collector goes on with the scroll and returns the records. *)
Lemma sluggish_site_result :
  scroll_and_collect (H:=sluggish growing_site) (growing_site, false) 40 800
  = Ok [Script.candidate_record first_card; Script.candidate_record other_card].
Proof. vm_compute. reflexivity. Qed.

End PaginationSamples.

(** ** The extractor: shape and order of the records, lossy keys *)

Section ExtractorFacts.

Import Script.

Lemma to_record_five_string_fields (f : fields) : five_string_fields (to_record f).
Proof.
  split.
  - unfold to_record, extracted_fields. rewrite !dom_insert_L, dom_empty_L.
    apply set_eq. intros k. rewrite !elem_of_union, !elem_of_singleton.
    rewrite elem_of_empty. tauto.
  - intros k Hk. unfold extracted_fields in Hk.
    rewrite !elem_of_union, !elem_of_singleton in Hk.
    destruct Hk as [[[[->| ->]| ->]| ->]| ->]; by eexists.
Qed.

Lemma visit_fold_sublist (l visited kept : list Element)
    (st : list dict * gset string) :
  st.1 = candidate_record <$> kept -> kept `sublist_of` visited ->
  exists kept', (fold_left visit l st).1 = candidate_record <$> kept' ∧
                kept' `sublist_of` visited ++ l.
Proof.
  revert visited kept st. induction l as [|c l IH]; intros visited kept st Hst Hsub; simpl.
  - exists kept. by rewrite app_nil_r.
  - replace (visited ++ c :: l) with ((visited ++ [c]) ++ l)
      by (by rewrite <- app_assoc).
    destruct st as [results seen]. simpl in Hst. unfold visit at 2.
    destruct (decide (candidate_key c ∈ seen)).
    + apply (IH (visited ++ [c]) kept); [done|]. by apply sublist_inserts_r.
    + apply (IH (visited ++ [c]) (kept ++ [c])).
      * simpl. by rewrite Hst, fmap_app.
      * by apply sublist_app.
Qed.

Lemma run_sublist (nodes : list Element) :
  exists kept, run nodes = candidate_record <$> kept ∧ kept `sublist_of` nodes.
Proof.
  destruct (visit_fold_sublist (candidates nodes) [] [] ([], ∅) eq_refl
              (sublist_nil_l _)) as (kept & Hrun & Hsub).
  exists kept. split; [done|]. simpl in Hsub. etrans; [exact Hsub|].
  apply sublist_filter.
Qed.

Lemma run_key_once (nodes : list Element) (c : Element) :
  c ∈ candidates nodes ->
  length (filter (fun r => record_key r = candidate_key c) (run nodes)) = 1%nat.
Proof.
  intros Hc. destruct (run_inv nodes) as [_ Hfirst Hnd _].
  apply nodup_key_once; [done|].
  assert (is_Some (find (has_key (candidate_key c)) (run nodes))) as [r Hr].
  { unfold run. rewrite Hfirst.
    destruct (find_is_some_elem (yields_key (candidate_key c)) _ c Hc) as [c' ->].
    - unfold yields_key. by apply bool_decide_eq_true.
    - by eexists. }
  apply find_some_elem in Hr as [Hr1 Hr2].
  unfold has_key in Hr2. apply bool_decide_eq_true in Hr2.
  rewrite <- Hr2. by apply list_elem_of_fmap_2.
Qed.

Lemma take_length (n : nat) (s : string) :
  String.length (Str.take n s) = Nat.min n (String.length s).
Proof.
  unfold Str.take. revert n. induction s as [|c s IH]; intros [|n]; simpl; try done.
  by rewrite IH.
Qed.

Lemma take_append_long (n : nat) (a b : string) :
  (n <= String.length a)%nat -> Str.take n (a +:+ b) = Str.take n a.
Proof.
  unfold Str.take. revert n. induction a as [|c a IH]; intros [|n] Hn; simpl in *;
    try done; try lia.
  - by destruct b.
  - f_equal. apply IH. lia.
Qed.

End ExtractorFacts.

Section ExtractorTheorems.

Import Script.

Context `{Browser}.

(** X5. Every record the extractor returns has exactly the five fields
    title, description, date, rating and reviewer, each holding a string:
    no field is null, and there is no source field yet. *)
Theorem extracted_records_have_five_string_fields (page : Page) (r : dict) :
  r ∈ extract_reviews_from_dom page -> five_string_fields r.
Proof.
  unfold extract_reviews_from_dom. destruct (document_nodes page) as [nodes|e].
  - intros Hr. destruct (run_origin nodes r Hr) as (c & _ & ->).
    apply to_record_five_string_fields.
  - intros Hr. by apply elem_of_nil in Hr.
Qed.

(** X6. The extractor returns its records in document order, at most one
    per node: they are the records of a sub-sequence of the nodes of the
    document.  When the evaluation in the page raises, it returns the
    empty list. *)
Theorem extractor_keeps_document_order (page : Page) :
  match document_nodes page with
  | Ok nodes =>
      exists kept, kept `sublist_of` nodes ∧
                   extract_reviews_from_dom page = candidate_record <$> kept ∧
                   (length (extract_reviews_from_dom page) <= length nodes)%nat
  | Raise _ => extract_reviews_from_dom page = []
  end.
Proof.
  unfold extract_reviews_from_dom. destruct (document_nodes page) as [nodes|e]; [|done].
  destruct (run_sublist nodes) as (kept & Hrun & Hsub).
  exists kept. split; [done|]. split; [done|].
  rewrite Hrun, length_fmap. by apply sublist_length.
Qed.

(** X7. The key of deduplication is lossy.  It has at most 200
    characters.  Two candidates with the same title whose bodies agree on
    their first 80 characters have the same key, and so do two candidates
    whose titles have 200 characters or more and agree on the first 200,
    whatever their bodies; in both cases the output holds one record for
    the two, the other one is dropped. *)
Theorem dedup_key_is_lossy (nodes : list Element) (c1 c2 : Element) :
  c1 ∈ candidates nodes -> c2 ∈ candidates nodes ->
  (f_title (extract_fields c1) = f_title (extract_fields c2) ∧
   Str.take 80 (f_body (extract_fields c1)) = Str.take 80 (f_body (extract_fields c2)))
  ∨
  ((200 <= String.length (f_title (extract_fields c1)))%nat ∧
   Str.take 200 (f_title (extract_fields c1))
   = Str.take 200 (f_title (extract_fields c2))) ->
  (String.length (candidate_key c1) <= 200)%nat ∧
  candidate_key c1 = candidate_key c2 ∧
  length (filter (fun r => record_key r = candidate_key c1) (run nodes)) = 1%nat ∧
  length (filter (fun r => record_key r = candidate_key c2) (run nodes)) = 1%nat.
Proof.
  intros Hc1 Hc2 Hsame.
  assert (candidate_key c1 = candidate_key c2) as Hkey.
  { unfold candidate_key, dedup_key. destruct Hsame as [[Ht Hb]|[Hlen Ht]].
    - by rewrite Ht, Hb.
    - assert (200 <= String.length (f_title (extract_fields c2)))%nat as Hlen2.
      { pose proof (take_length 200 (f_title (extract_fields c2))) as Hl2.
        pose proof (take_length 200 (f_title (extract_fields c1))) as Hl1.
        rewrite <- Ht, Hl1 in Hl2. lia. }
      by rewrite !take_append_long. }
  split.
  - unfold candidate_key, dedup_key. rewrite take_length. lia.
  - split; [done|]. split; [by apply run_key_once|].
    by apply run_key_once.
Qed.

End ExtractorTheorems.

Module ExtractorSamples.

Import Script Sample.

Lemma five_fields_witness :
  five_string_fields (candidate_record first_card).
Proof.
  apply (extracted_records_have_five_string_fields
           (H:=browser (fun _ => true) growing_site) growing_site).
  change (extract_reviews_from_dom (H:=browser (fun _ => true) growing_site)
            growing_site) with (run [first_card]).
  assert (run [first_card] = [candidate_record first_card]) as ->
    by (vm_compute; reflexivity).
  apply list_elem_of_here.
Defined.

Lemma lossy_key_witness :
  candidate_key first_card = candidate_key twin_card ∧
  length (filter (fun r => record_key r = candidate_key first_card)
                 (run [first_card; twin_card; other_card])) = 1%nat.
Proof.
  assert (candidates [first_card; twin_card; other_card]
          = [first_card; twin_card; other_card]) as Hcands by reflexivity.
  destruct (dedup_key_is_lossy [first_card; twin_card; other_card]
              first_card twin_card) as (_ & Hkey & Hone & _).
  - rewrite Hcands. apply list_elem_of_here.
  - rewrite Hcands. apply list_elem_of_further, list_elem_of_here.
  - left. split; reflexivity.
  - split; [exact Hkey | exact Hone].
Defined.

End ExtractorSamples.

(** ** The adapters: tags, policies, error paths *)

Section AdapterPolicies.

Context `{DateParser}.

Lemma omap_omap {A B C} (f : A -> option B) (g : B -> option C) (l : list A) :
  omap g (omap f l) = omap (fun x => f x ≫= g) l.
Proof.
  induction l as [|x l IH]; [done|]. simpl.
  destruct (f x) as [y|]; simpl; [|exact IH].
  destruct (g y); [f_equal|]; exact IH.
Qed.

Lemma within_range_naive (d start end_ : datetime) :
  Datetime.naive start -> Datetime.naive end_ -> Datetime.naive d ->
  within_range d start end_
  = Ok (leb_components start d && leb_components d end_).
Proof.
  intros Hs He Hd. unfold within_range. rewrite (le_naive start d) by done.
  unfold mbind, result_bind, mret, result_ret.
  destruct (leb_components start d); [|done]. by rewrite le_naive.
Qed.

Lemma non_empty_iso (d : datetime) : Str.non_empty (iso d) = true.
Proof.
  unfold iso, Datetime.strftime_dashed.
  by destruct (Datetime.year_text (year d)).
Qed.

Lemma r_copy_date (r : dict) (date source : string) :
  get (r_copy r date source) "date" = PyStr date.
Proof. done. Qed.

Lemma r_copy_source (r : dict) (date source : string) :
  r_copy r date source !! "source" = Some (PyStr source).
Proof. done. Qed.

Lemma g2_resolve_date_pure (r : dict) :
  r !! "description" ≠ Some PyNone -> g2_resolve_date r = Ok (g2_resolved r).
Proof.
  intros Hdesc. unfold g2_resolve_date, g2_resolved.
  destruct (parse_date_safe (or_empty (get r "date"))); [done|].
  unfold get_or. destruct (r !! "description") as [[|s]|]; done.
Qed.

(** The first pass in pure form. *)
Lemma g2_normalize_one_naive (start end_ : datetime) (r : dict) :
  Datetime.naive start -> Datetime.naive end_ ->
  (forall s d, parse_date_safe s = Some d -> Datetime.naive d) ->
  r !! "description" ≠ Some PyNone ->
  g2_normalize_one start end_ r
  = Ok (match g2_resolved r with
        | None => Some (r_copy r (or_empty (get r "date")) "G2")
        | Some d =>
            if leb_components start d && leb_components d end_
            then Some (r_copy r (iso d) "G2") else None
        end).
Proof.
  intros Hs He Hp Hdesc. unfold g2_normalize_one.
  rewrite (g2_resolve_date_pure r Hdesc). unfold_result.
  destruct (g2_resolved r) as [d|] eqn:Hres; [|done].
  assert (Datetime.naive d) as Hd.
  { unfold g2_resolved in Hres.
    destruct (parse_date_safe (or_empty (get r "date"))) eqn:H1.
    - injection Hres as <-. by apply (Hp _ _ H1).
    - by apply (Hp _ _ Hres). }
  rewrite within_range_naive by done.
  by destruct (leb_components start d && leb_components d end_).
Qed.

(** The second pass in pure form. *)
Lemma g2_final_one_naive (start end_ : datetime) (y : dict) :
  Datetime.naive start -> Datetime.naive end_ ->
  (forall s d, parse_date_safe s = Some d -> Datetime.naive d) ->
  g2_final_one start end_ y
  = Ok (if truthy (get y "date") then
          match parse_date_safe (or_empty (get y "date")) with
          | Some p =>
              if leb_components start p && leb_components p end_
              then Some y else None
          | None => Some y
          end
        else Some y).
Proof.
  intros Hs He Hp. unfold g2_final_one.
  destruct (truthy (get y "date")); [|done].
  destruct (parse_date_safe (or_empty (get y "date"))) as [p|] eqn:Hparse; [|done].
  rewrite within_range_naive by eauto. unfold_result.
  by destruct (leb_components start p && leb_components p end_).
Qed.

Lemma g2_passes_compose (start end_ : datetime) (r : dict) :
  (match g2_resolved r with
   | None => Some (r_copy r (or_empty (get r "date")) "G2")
   | Some d =>
       if leb_components start d && leb_components d end_
       then Some (r_copy r (iso d) "G2") else None
   end) ≫= (fun y =>
     if truthy (get y "date") then
       match parse_date_safe (or_empty (get y "date")) with
       | Some p =>
           if leb_components start p && leb_components p end_
           then Some y else None
       | None => Some y
       end
     else Some y)
  = g2_policy start end_ r.
Proof.
  unfold g2_policy. destruct (g2_resolved r) as [d|] eqn:Hres.
  - destruct (leb_components start d && leb_components d end_); [|done].
    simpl. rewrite r_copy_date. simpl. by rewrite non_empty_iso.
  - simpl. rewrite r_copy_date. simpl.
    destruct (Str.non_empty (or_empty (get r "date"))); [|done].
    unfold g2_resolved in Hres.
    by destruct (parse_date_safe (or_empty (get r "date"))).
Qed.

Lemma g2_normalize_one_source (start end_ : datetime) (r y : dict) :
  g2_normalize_one start end_ r = Ok (Some y) -> y !! "source" = Some (PyStr "G2").
Proof.
  unfold g2_normalize_one.
  destruct (g2_resolve_date r) as [[d|]|e]; unfold_result; [| |done].
  - destruct (within_range d start end_) as [[]|e]; unfold_result; by intros [= <-].
  - by intros [= <-].
Qed.

Lemma dated_normalize_one_source (source : string) (start end_ : datetime)
    (r y : dict) :
  dated_normalize_one source start end_ r = Ok (Some y) ->
  y !! "source" = Some (PyStr source).
Proof.
  unfold dated_normalize_one.
  destruct (parse_date_safe (or_empty (get r "date"))) as [d|].
  - destruct (within_range d start end_) as [[]|e]; unfold_result; by intros [= <-].
  - unfold_result. by intros [= <-].
Qed.

(** X8. The source tag of every emitted record is that of the adapter
    that emitted it. *)
Theorem adapters_tag_their_records (start end_ : datetime)
    (all_reviews out : list dict) (r : dict) :
  r ∈ out ->
  (g2_filter start end_ all_reviews = Ok out -> r !! "source" = Some (PyStr "G2")) ∧
  (capterra_filter start end_ all_reviews = Ok out ->
   r !! "source" = Some (PyStr "Capterra")) ∧
  (trustradius_filter start end_ all_reviews = Ok out ->
   r !! "source" = Some (PyStr "TrustRadius")).
Proof.
  intros Hr. split; [|split].
  - intros Hout.
    destruct (g2_filter_origin _ _ _ _ _ Hout Hr) as (raw & _ & Hnorm & _).
    by apply (g2_normalize_one_source start end_ raw).
  - intros Hout. destruct (for_append_origin _ _ _ _ Hout Hr) as (raw & _ & Hnorm).
    by apply (dated_normalize_one_source _ start end_ raw).
  - intros Hout. destruct (for_append_origin _ _ _ _ Hout Hr) as (raw & _ & Hnorm).
    by apply (dated_normalize_one_source _ start end_ raw).
Qed.

(** X9. When the bounds and every date that parses are naive, the
    Capterra and TrustRadius adapters return, in the order of the collected
    list, the records whose date does not parse, under their raw date, and
    those whose date lies between the bounds, both included, under the ISO
    form of the date; the others are dropped and nothing is raised. *)
Theorem dated_filters_follow_policy (start end_ : datetime)
    (all_reviews : list dict) :
  Datetime.naive start -> Datetime.naive end_ ->
  (forall r d, r ∈ all_reviews ->
     parse_date_safe (or_empty (get r "date")) = Some d -> Datetime.naive d) ->
  capterra_filter start end_ all_reviews
  = Ok (omap (dated_policy "Capterra" start end_) all_reviews) ∧
  trustradius_filter start end_ all_reviews
  = Ok (omap (dated_policy "TrustRadius" start end_) all_reviews).
Proof.
  intros Hs He Hall. split; by apply range_filter_naive.
Qed.

(** X10. When the bounds and every date the parser returns are naive, and
    no description is null, the two passes of the G2 adapter amount to
    [g2_policy], record by record and in order: an undated record is kept;
    a dated one is kept when its date lies in the range and the midnight
    date read back from its ISO form does too. *)
Theorem g2_filter_follows_policy (start end_ : datetime) (all_reviews : list dict) :
  Datetime.naive start -> Datetime.naive end_ ->
  (forall s d, parse_date_safe s = Some d -> Datetime.naive d) ->
  (forall r, r ∈ all_reviews -> r !! "description" ≠ Some PyNone) ->
  g2_filter start end_ all_reviews = Ok (omap (g2_policy start end_) all_reviews).
Proof.
  intros Hs He Hp Hdesc. unfold g2_filter.
  rewrite (for_append_total (g2_normalize_one start end_) _ all_reviews
             (fun r Hr => g2_normalize_one_naive start end_ r Hs He Hp (Hdesc r Hr))).
  unfold_result.
  rewrite (for_append_total (g2_final_one start end_) _ _
             (fun y _ => g2_final_one_naive start end_ y Hs He Hp)).
  f_equal. rewrite omap_omap. apply list_omap_ext.
  apply Forall2_same_length_lookup. split; [done|].
  intros i x y Hx Hy. rewrite Hx in Hy. injection Hy as <-.
  apply g2_passes_compose.
Qed.

(** X11. A G2 record whose date does not parse and whose description is
    null makes the G2 adapter raise [TypeError], at the slice of the
    description; the Capterra and TrustRadius adapters keep such a
    record, with an empty description. *)
Theorem g2_raises_on_null_description (start end_ : datetime) (r : dict)
    (rest : list dict) :
  parse_date_safe (or_empty (get r "date")) = None ->
  r !! "description" = Some PyNone ->
  g2_filter start end_ (r :: rest) = Raise TypeError ∧
  dated_normalize_one "Capterra" start end_ r
  = Ok (Some (r_copy r (or_empty (get r "date")) "Capterra")) ∧
  r_copy r (or_empty (get r "date")) "Capterra" !! "description" = Some (PyStr "").
Proof.
  intros Hdate Hdesc. split; [|split].
  - unfold g2_filter. simpl. unfold g2_normalize_one, g2_resolve_date, get_or.
    rewrite Hdate, Hdesc. done.
  - unfold dated_normalize_one. by rewrite Hdate.
  - unfold r_copy, get. rewrite !lookup_insert_ne by done.
    rewrite lookup_insert_eq, Hdesc. done.
Qed.

End AdapterPolicies.

Section MergeErrors.

Lemma collect_key_raises (r : dict) (e : exn) :
  collect_key r = Raise e <-> r !! "title" = Some PyNone ∧ e = TypeError.
Proof.
  unfold collect_key, get_or.
  destruct (r !! "title") as [[|s]|]; unfold_result.
  - split; [by intros [= <-] | by intros [_ ->]].
  - split; [done | by intros [? _]].
  - split; [done | by intros [? _]].
Qed.

(** X12. The merge of the collector tolerates a record without title or
    description and a null description, which count as empty; it raises
    exactly when a record has a null title, and then a [TypeError]. *)
Theorem merge_raises_on_null_title (a : Accum) (found : list dict) :
  ((exists e, merge_found a found = Raise e) <->
   exists r, r ∈ found ∧ r !! "title" = Some PyNone) ∧
  (forall e, merge_found a found = Raise e -> e = TypeError).
Proof.
  revert a. induction found as [|r found IH]; intros a; simpl.
  - split; [|done]. split; [by intros [e ?]|].
    intros (r & Hr & _). by apply elem_of_nil in Hr.
  - unfold merge_one. destruct (collect_key r) as [k|e] eqn:Hk; unfold_result.
    + assert (r !! "title" ≠ Some PyNone) as Hr.
      { intros Hnull. assert (collect_key r = Raise TypeError) as Habs
          by (by apply collect_key_raises).
        rewrite Hk in Habs. discriminate. }
      destruct (decide (k ∈ seen_keys a)).
      * destruct (IH a) as [Hiff Hty]. split; [|done].
        rewrite Hiff. split.
        -- intros (x & Hx & Hnull). exists x. split; [by right | done].
        -- intros (x & Hx & Hnull). apply elem_of_cons in Hx as [->|Hx]; [done|].
           by exists x.
      * destruct (IH (mkAccum (collected a ++ [r]) ({[k]} ∪ seen_keys a)
                        (S (new_count a)))) as [Hiff Hty].
        split; [|done]. rewrite Hiff. split.
        -- intros (x & Hx & Hnull). exists x. split; [by right | done].
        -- intros (x & Hx & Hnull). apply elem_of_cons in Hx as [->|Hx]; [done|].
           by exists x.
    + apply collect_key_raises in Hk as [Hnull ->]. split.
      * split; [|by eexists]. intros _. exists r. split; [by left | done].
      * by intros e' [= <-].
Qed.

End MergeErrors.

Section Navigation.

Context `{Browser} `{DateParser}.

Lemma try_variants_all_fail (urls : list string) (page : Page) :
  (forall u p, (goto u p).2 ≠ None) -> try_variants urls page = Raise RuntimeError.
Proof.
  intros Hfail. revert page. induction urls as [|u urls IH]; intros page; simpl; [done|].
  specialize (Hfail u page). destruct (goto u page) as [p' [e|]]; [apply IH | done].
Qed.


End Navigation.
Module AdapterPolicySamples.

Import Sample LocalTime.

Lemma local_times_are_naive (s : string) (d : datetime) :
  parse_date_safe (H:=LocalTime.parser) s = Some d -> Datetime.naive d.
Proof.
  unfold parse_date_safe, catch_none. simpl.
  destruct (parse_chars (Str.chars s)) as [d0|e]; unfold_result; [|done].
  by intros [= <-].
Qed.

Lemma source_tag_witness :
  r_copy sparse_record "2024-03-15" "Capterra" !! "source" = Some (PyStr "Capterra").
Proof.
  apply (proj1 (proj2 (adapters_tag_their_records (H:=iso8601)
                         jan_1_2024 jun_30_2024 [sparse_record]
                         [r_copy sparse_record "2024-03-15" "Capterra"]
                         (r_copy sparse_record "2024-03-15" "Capterra")
                         (list_elem_of_here _ _)))).
  vm_compute. reflexivity.
Defined.

(** Capterra keeps the record dated in the afternoon of the day the range
    starts at noon, and the record with a relative date. *)
Lemma dated_policy_witness :
  capterra_filter (H:=LocalTime.parser) jan_1_noon jun_30_2024
    [afternoon_record; undated_record]
  = Ok [r_copy afternoon_record "2024-01-01" "Capterra";
        r_copy undated_record "3 months ago" "Capterra"].
Proof.
  rewrite (proj1 (dated_filters_follow_policy (H:=LocalTime.parser)
                    jan_1_noon jun_30_2024 [afternoon_record; undated_record]
                    eq_refl eq_refl
                    (fun r d _ Hd => local_times_are_naive _ d Hd))).
  vm_compute. reflexivity.
Defined.

(** G2 drops the first of these two records: its date lies in the range,
    but the midnight read back from its ISO form lies before noon. *)
Lemma g2_policy_witness :
  g2_filter (H:=LocalTime.parser) jan_1_noon jun_30_2024
    [afternoon_record; undated_record]
  = Ok [r_copy undated_record "3 months ago" "G2"].
Proof.
  rewrite (g2_filter_follows_policy (H:=LocalTime.parser)
             jan_1_noon jun_30_2024 [afternoon_record; undated_record]
             eq_refl eq_refl local_times_are_naive).
  - vm_compute. reflexivity.
  - intros r Hr. apply elem_of_cons in Hr as [->|Hr]; [done|].
    apply list_elem_of_singleton in Hr as ->. done.
Defined.

Lemma null_description_witness :
  g2_filter (H:=LocalTime.parser) jan_1_2024 jun_30_2024 [undescribed_record]
  = Raise TypeError ∧
  r_copy undescribed_record "" "Capterra" !! "description" = Some (PyStr "").
Proof.
  destruct (g2_raises_on_null_description (H:=LocalTime.parser)
              jan_1_2024 jun_30_2024 undescribed_record [] eq_refl eq_refl)
    as (Hg2 & _ & Hdesc).
  split; [exact Hg2 | exact Hdesc].
Defined.

Lemma null_title_witness :
  exists e, merge_found (mkAccum [] ∅ 0) [undated_record; untitled_record] = Raise e.
Proof.
  apply (proj1 (merge_raises_on_null_title (mkAccum [] ∅ 0)
                  [undated_record; untitled_record])).
  exists untitled_record. split; [|reflexivity].
  apply list_elem_of_further, list_elem_of_here.
Defined.


End AdapterPolicySamples.

(** ** The orchestrator: what a run does to the disk *)

Section DiskFrame.

Import Os.







(** Writing the same content again at the same path changes nothing. *)
Lemma write_file_again (d d' : Disk) (p : PurePath) (c : content) :
  write_file d p c = Ok d' -> write_file d' p c = Ok d'.
Proof.
  unfold write_file. destruct (parts p) as [|c0 l] eqn:Hp; [done|]. rewrite <- Hp.
  destruct (walk d (start_dir d p) (removelast (parts p))) as [dir|e] eqn:Hw;
    unfold_result; [|done].
  destruct (decide (List.last (parts p) "" = "..")); [done|].
  intros Hwrite.
  assert (entry_at d (dir ++ [List.last (parts p) ""]) ≠ Some Dir
          ∧ d' = mkDisk (cwd d) (<[dir ++ [List.last (parts p) ""] := File c]> (tree d)))
    as [Hent ->].
  { destruct (entry_at d (dir ++ [List.last (parts p) ""])) as [[|c1]|];
      [done| |]; by injection Hwrite as <-. }
  change (start_dir (mkDisk (cwd d) _) p) with (start_dir d p).
  rewrite (walk_insert_stable d _ _ _ _ dir Hent Hw).
  rewrite entry_at_snoc. simpl. rewrite lookup_insert_eq.
  by rewrite insert_insert_eq.
Qed.

End DiskFrame.

Section OrchestratorFrame.

Context `{Browser} `{DateParser}.

(** The steps of a run that returns. *)
Lemma run_scraper_ok_inv (company start_date end_date source outdir : string)
    (d d2 : Disk) (outpath : PurePath) (reviews : list dict) :
  run_scraper company start_date end_date source outdir d
  = (d2, Ok (outpath, reviews)) ->
  exists start end_ d1,
    dateparser_parse start_date = Ok start ∧
    dateparser_parse end_date = Ok end_ ∧
    Datetime.gt start end_ = Ok false ∧
    (page ← launch; dispatch page company start end_ (Str.lower source)) = Ok reviews ∧
    outpath = Os.joinpath (Os.Path outdir)
                (output_name company (Str.lower source) start end_) ∧
    Os.Path_mkdir d (Os.Path outdir) = (d1, None) ∧
    Os.write_file d1 outpath (JsonDump reviews) = Ok d2.
Proof.
  unfold run_scraper.
  destruct (dateparser_parse start_date) as [start|e]; unfold_result; [|done].
  destruct (dateparser_parse end_date) as [end_|e]; unfold_result; [|done].
  destruct (Datetime.gt start end_) as [[]|e] eqn:Hgt; [done| |done].
  destruct launch as [page|e]; unfold_result; [|done].
  destruct (dispatch page company start end_ (Str.lower source)) as [rs|e] eqn:Hd;
    [|done].
  destruct (Os.Path_mkdir d (Os.Path outdir)) as [d1 [e|]]; [done|].
  destruct (Os.write_file d1 _ (JsonDump rs)) as [d2'|e] eqn:Hw; [|done].
  intros [= <- <- <-]. by exists start, end_, d1.
Qed.



(** X15. Running the same command again on the disk a successful run left
    succeeds and leaves that disk unchanged: the output directory is
    found in place and the file is written over with the same content. *)
Theorem rerun_changes_nothing (cl : CommandLine) (d d' : Disk) :
  main cl d = (0, d') -> main cl d' = (0, d').
Proof.
  unfold main. destruct (parse_args cl) as [args|status]; [|by intros [= -> <-]].
  destruct (run_scraper _ _ _ _ _ d) as [d2 [[outpath reviews]|e]] eqn:Hrun;
    [|done].
  intros [= <-].
  destruct (run_scraper_ok_inv _ _ _ _ _ _ _ _ _ Hrun)
    as (start & end_ & d1 & Hs & He & Hgt & Hrs & Hpath & Hmk & Hw).
  assert (Os.is_dir d2 (Os.Path (arg_outdir args)) = true) as Hdir.
  { destruct (write_file_post _ _ _ (Os.Path (arg_outdir args)) _ Hw) as [_ Hkeep].
    apply Hkeep. by apply (Path_mkdir_post d). }
  unfold run_scraper. rewrite Hs, He. unfold_result. rewrite Hgt.
  unfold mbind, result_bind in Hrs. rewrite Hrs.
  rewrite (Path_mkdir_existing _ _ Hdir). rewrite <- Hpath.
  by rewrite (write_file_again _ _ _ _ Hw).
Qed.

Lemma scrape_g2_unreachable (page : Page) (company_slug : string)
    (start end_ : datetime) :
  (forall u p, (goto u p).2 ≠ None) ->
  scrape_g2 page company_slug start end_ = Raise RuntimeError.
Proof.
  intros Hfail. unfold scrape_g2, goto_or_fail.
  specialize (Hfail ("https://www.g2.com/products/" +:+ company_slug +:+ "/reviews") page).
  by destruct (goto _ page) as [p' [e|]].
Qed.

Lemma scrape_trustradius_unreachable (page : Page) (company_slug : string)
    (start end_ : datetime) :
  (forall u p, (goto u p).2 ≠ None) ->
  scrape_trustradius page company_slug start end_ = Raise RuntimeError.
Proof.
  intros Hfail. unfold scrape_trustradius, goto_or_fail.
  specialize (Hfail ("https://www.trustradius.com/products/" +:+ company_slug
                     +:+ "/reviews") page).
  by destruct (goto _ page) as [p' [e|]].
Qed.

Lemma dispatch_unreachable (page : Page) (company : string)
    (start end_ : datetime) (source_lower : string) :
  (forall u p, (goto u p).2 ≠ None) ->
  exists e, dispatch page company start end_ source_lower = Raise e.
Proof.
  intros Hfail. unfold dispatch.
  destruct (decide (source_lower = "g2")).
  { exists RuntimeError. by apply scrape_g2_unreachable. }
  destruct (decide (source_lower = "capterra")).
  { exists RuntimeError. unfold scrape_capterra.
    by rewrite try_variants_all_fail. }
  destruct (decide (source_lower ∈ _)).
  { exists RuntimeError. by apply scrape_trustradius_unreachable. }
  by exists ValueError.
Qed.

(** X16. Input that does not validate ends the run before anything is
    written: when a date does not parse, or the start date is after the
    end date, [run_scraper] raises [ValueError] and the process ends with
    status 1 on an untouched disk; so it does when the two dates do not
    compare, or when the browser can open no page. *)
Theorem failures_before_saving_exit_1 (cl : CommandLine) (args : Namespace)
    (d : Disk) :
  parse_args cl = inl args ->
  ((is_ok (dateparser_parse (arg_start args)) = false ∨
    is_ok (dateparser_parse (arg_end args)) = false ∨
    (exists start end_, dateparser_parse (arg_start args) = Ok start ∧
                        dateparser_parse (arg_end args) = Ok end_ ∧
                        Datetime.gt start end_ = Ok true)) ->
   run_scraper (arg_company args) (arg_start args) (arg_end args)
               (arg_source args) (arg_outdir args) d = (d, Raise ValueError) ∧
   main cl d = (1, d)) ∧
  ((exists start end_ e, dateparser_parse (arg_start args) = Ok start ∧
                         dateparser_parse (arg_end args) = Ok end_ ∧
                         Datetime.gt start end_ = Raise e) ->
   main cl d = (1, d)) ∧
  ((forall u p, (goto u p).2 ≠ None) -> main cl d = (1, d)).
Proof.
  intros Hargs. unfold main. rewrite Hargs. split; [|split].
  - intros Hbad.
    assert (run_scraper (arg_company args) (arg_start args) (arg_end args)
              (arg_source args) (arg_outdir args) d = (d, Raise ValueError)) as Hrun.
    { unfold run_scraper. destruct Hbad as [Hs|[He|(start & end_ & Hs & He & Hgt)]].
      - by destruct (dateparser_parse (arg_start args)).
      - destruct (dateparser_parse (arg_start args)); unfold_result; [|done].
        by destruct (dateparser_parse (arg_end args)).
      - rewrite Hs, He. unfold_result. by rewrite Hgt. }
    by rewrite Hrun.
  - intros (start & end_ & e & Hs & He & Hgt). unfold run_scraper.
    rewrite Hs, He. unfold_result. by rewrite Hgt.
  - intros Hfail. unfold run_scraper.
    destruct (dateparser_parse (arg_start args)) as [start|e]; unfold_result; [|done].
    destruct (dateparser_parse (arg_end args)) as [end_|e]; unfold_result; [|done].
    destruct (Datetime.gt start end_) as [[]|e]; [done| |done].
    destruct launch as [page|e]; unfold_result; [|done].
    destruct (dispatch_unreachable page (arg_company args) start end_
                (Str.lower (arg_source args)) Hfail) as [e ->].
    done.
Qed.

Lemma lower_choice (s : string) : s ∈ source_choices -> Str.lower s = s.
Proof.
  unfold source_choices. rewrite !elem_of_cons.
  intros [->|[->|[->|Hs]]]; [done..|]. by apply elem_of_nil in Hs.
Qed.

(** What the parsing hands over when it does not end the process. *)
Lemma parse_args_inl (cl : CommandLine) (args : Namespace) :
  parse_args cl = inl args ->
  opt_help cl = false ∧ arg_source args ∈ source_choices ∧
  opt_company cl = Some (arg_company args) ∧
  opt_start cl = Some (arg_start args) ∧
  opt_end cl = Some (arg_end args) ∧
  opt_source cl = Some (arg_source args) ∧
  arg_outdir args = default "." (opt_outdir cl).
Proof.
  unfold parse_args, source_rejected.
  destruct (opt_source cl) as [src|].
  - case_bool_decide as Hsrc; [done|].
    destruct (opt_help cl); [done|].
    destruct (opt_company cl), (opt_start cl), (opt_end cl); try done.
    by intros [= <-].
  - destruct (opt_help cl); [done|].
    by destruct (opt_company cl), (opt_start cl), (opt_end cl).
Qed.

(** X17. What the parsing of the arguments hands to [run_scraper]: the
    source is one of g2, capterra and trustradius, already in lower case,
    so [dispatch] always reaches one of the three adapters (the error for
    an unsupported source and the spellings with a space or a hyphen are
    out of reach of the command line), and the output directory is the
    one given or else the current directory. *)
Theorem command_line_source_is_supported (cl : CommandLine) (args : Namespace) :
  parse_args cl = inl args ->
  arg_source args ∈ source_choices ∧
  Str.lower (arg_source args) = arg_source args ∧
  arg_outdir args = default "." (opt_outdir cl) ∧
  (forall page company start end_,
     dispatch page company start end_ (Str.lower (arg_source args))
     = (if decide (arg_source args = "g2") then scrape_g2 page company start end_
        else if decide (arg_source args = "capterra")
             then scrape_capterra page company start end_
             else scrape_trustradius page company start end_)).
Proof.
  intros Hargs.
  destruct (parse_args_inl _ _ Hargs) as (_ & Hsrc & _ & _ & _ & _ & Hout).
  pose proof (lower_choice _ Hsrc) as Hlow.
  split; [done|]. split; [done|]. split; [done|].
  intros page company start end_. rewrite Hlow. unfold dispatch.
  destruct (decide (arg_source args = "g2")); [done|].
  destruct (decide (arg_source args = "capterra")); [done|].
  destruct (decide (arg_source args ∈ _)) as [|Hnot]; [done|].
  exfalso. apply Hnot. unfold source_choices in Hsrc.
  rewrite !elem_of_cons in Hsrc. rewrite !elem_of_cons.
  destruct Hsrc as [?|[?|[?|Hs]]]; [done | done | by left|].
  by apply elem_of_nil in Hs.
Qed.

End OrchestratorFrame.
Module OrchestratorFrameSamples.

Import Sample.

Lemma rerun_witness :
  exists d',
    main (H:=browser (fun _ => true) growing_site) (H0:=iso8601) g2_command empty_disk
    = (0, d') ∧
    main (H:=browser (fun _ => true) growing_site) (H0:=iso8601) g2_command d'
    = (0, d').
Proof.
  destruct (main (H:=browser (fun _ => true) growing_site) (H0:=iso8601)
              g2_command empty_disk) as [status d'] eqn:Hrun.
  assert (status = 0) as ->.
  { assert ((main (H:=browser (fun _ => true) growing_site) (H0:=iso8601)
               g2_command empty_disk).1 = 0) as Hstatus by (vm_compute; reflexivity).
    by rewrite Hrun in Hstatus. }
  exists d'. split; [reflexivity|].
  exact (rerun_changes_nothing (H:=browser (fun _ => true) growing_site)
           (H0:=iso8601) g2_command empty_disk d' Hrun).
Defined.

(** A command whose start date is after its end date. *)
Lemma validation_witness :
  main (H:=barren) (H0:=iso8601)
    (mkCommandLine (Some "zoho-crm") (Some "2024-06-30") (Some "2024-01-01")
                   (Some "g2") None false) empty_disk
  = (1, empty_disk).
Proof.
  refine (proj2 (proj1 (failures_before_saving_exit_1 (H:=barren) (H0:=iso8601)
                          (mkCommandLine (Some "zoho-crm") (Some "2024-06-30")
                                         (Some "2024-01-01") (Some "g2") None false)
                          (mkNamespace "zoho-crm" "2024-06-30" "2024-01-01" "g2" ".")
                          empty_disk eq_refl) _)).
  right. right. exists jun_30_2024, jan_1_2024.
  split; [reflexivity|]. split; reflexivity.
Defined.

Lemma supported_source_witness :
  dispatch (H:=barren) (H0:=iso8601) [] "zoho-crm" jan_1_2024 jun_30_2024
           (Str.lower "g2")
  = scrape_g2 (H:=barren) (H0:=iso8601) [] "zoho-crm" jan_1_2024 jun_30_2024.
Proof.
  exact (proj2 (proj2 (proj2 (command_line_source_is_supported (H:=barren)
                                (H0:=iso8601) g2_command
                                (mkNamespace "zoho-crm" "2024-01-01" "2024-06-30"
                                             "g2" "out/2024/reviews")
                                eq_refl)))
               [] "zoho-crm" jan_1_2024 jun_30_2024).
Defined.

End OrchestratorFrameSamples.

(** ** The helpers: range check and ISO form *)

Section HelperTheorems.

Lemma cmp_tuple_refl (l : list Z) : Datetime.cmp_tuple l l = Eq.
Proof. induction l as [|x l IH]; simpl; [done|]. by rewrite Z.compare_refl. Qed.

Lemma leb_components_refl (d : datetime) : leb_components d d = true.
Proof. unfold leb_components. by rewrite cmp_tuple_refl. Qed.

Lemma le_mixed (a b : datetime) :
  (utcoffset a = None ∧ utcoffset b ≠ None) ∨
  (utcoffset a ≠ None ∧ utcoffset b = None) ->
  Datetime.le a b = Raise TypeError.
Proof.
  unfold Datetime.le, Datetime.cmp.
  destruct (utcoffset a) as [oa|], (utcoffset b) as [ob|];
    intros [[? ?]|[? ?]]; try done.
Qed.

(** X18. [within_range] is an inclusive check on naive values: the result
    is that of the two comparisons by components, and both bounds are in
    the range.  The second comparison runs only if the first holds: a
    naive date before a naive start is out of range whatever the end is.
    A date that is aware while the start is naive, or naive while the
    start is aware, raises [TypeError]. *)
Theorem within_range_bounds (d start end_ : datetime) :
  (Datetime.naive start -> Datetime.naive end_ -> Datetime.naive d ->
   within_range d start end_
   = Ok (leb_components start d && leb_components d end_)) ∧
  (Datetime.naive start -> Datetime.naive end_ ->
   leb_components start end_ = true ->
   within_range start start end_ = Ok true ∧
   within_range end_ start end_ = Ok true) ∧
  (Datetime.naive start -> Datetime.naive d ->
   leb_components start d = false ->
   within_range d start end_ = Ok false) ∧
  ((utcoffset start = None ∧ utcoffset d ≠ None) ∨
   (utcoffset start ≠ None ∧ utcoffset d = None) ->
   within_range d start end_ = Raise TypeError).
Proof.
  split; [|split; [|split]].
  - intros Hs He Hd. unfold within_range. rewrite (le_naive start d) by done.
    unfold mbind, result_bind, mret, result_ret.
    destruct (leb_components start d); [|done]. by rewrite le_naive.
  - intros Hs He Hle. unfold within_range.
    rewrite (le_naive start start), (le_naive start end_) by done.
    unfold mbind, result_bind, mret, result_ret.
    rewrite leb_components_refl, Hle, (le_naive end_ end_) by done.
    by rewrite leb_components_refl.
  - intros Hs Hd Hlt. unfold within_range. rewrite (le_naive start d) by done.
    unfold mbind, result_bind, mret, result_ret. by rewrite Hlt.
  - intros Hmixed. unfold within_range. by rewrite (le_mixed start d).
Qed.

Lemma is_digit_digit_char (z : Z) : Str.is_digit (digit_char z) = true.
Proof.
  unfold digit_char. pose proof (Z.mod_pos_bound z 10 eq_refl) as Hk.
  assert (z mod 10 = 0 ∨ z mod 10 = 1 ∨ z mod 10 = 2 ∨ z mod 10 = 3 ∨
          z mod 10 = 4 ∨ z mod 10 = 5 ∨ z mod 10 = 6 ∨ z mod 10 = 7 ∨
          z mod 10 = 8 ∨ z mod 10 = 9) as Hcases by lia.
  destruct Hcases as [->|[->|[->|[->|[->|[->|[->|[->|[->| ->]]]]]]]]]; reflexivity.
Qed.

Lemma iso_chars (d : datetime) :
  1000 <= year d ->
  Str.chars (iso d)
  = [digit_char (year d / 10 / 10 / 10); digit_char (year d / 10 / 10);
     digit_char (year d / 10); digit_char (year d); "-"%char;
     digit_char (month d / 10); digit_char (month d); "-"%char;
     digit_char (day d / 10); digit_char (day d)].
Proof.
  intros Hy. unfold iso, Datetime.strftime_dashed, Datetime.year_text.
  destruct (year d <? 10) eqn:H1; [apply Z.ltb_lt in H1; lia|].
  destruct (year d <? 100) eqn:H2; [apply Z.ltb_lt in H2; lia|].
  destruct (year d <? 1000) eqn:H3; [apply Z.ltb_lt in H3; lia|].
  reflexivity.
Qed.

(** X19. From the year 1000 on, the ISO form of a date has ten
    characters, four digits, a dash, two digits, a dash and two digits:
    the very pattern the extractor looks for in the text of a node. *)
Theorem iso_has_the_date_shape (d : datetime) :
  1000 <= year d ->
  String.length (iso d) = 10%nat ∧
  Str.date_at (Str.chars (iso d)) = true ∧
  Str.matches Str.date_at (iso d) = true.
Proof.
  intros Hy.
  assert (Str.date_at (Str.chars (iso d)) = true) as Hshape.
  { rewrite (iso_chars d Hy). unfold Str.date_at.
    rewrite !is_digit_digit_char. reflexivity. }
  split; [|split; [done|]].
  - rewrite <- (string_of_list_ascii_of_string (iso d)).
    fold (Str.chars (iso d)). rewrite (iso_chars d Hy). reflexivity.
  - unfold Str.matches. destruct (Str.chars (iso d)); simpl in *; by rewrite Hshape.
Qed.

End HelperTheorems.

Module HelperSamples.

Import Sample.

Lemma within_range_witness :
  within_range jan_1_2024 jan_1_2024 jun_30_2024 = Ok true ∧
  within_range jun_30_2024 jan_1_2024 jun_30_2024 = Ok true ∧
  within_range (mkDatetime 2024 3 15 10 0 0 0 (Some 0)) jan_1_2024 jun_30_2024
  = Raise TypeError.
Proof.
  destruct (within_range_bounds jan_1_2024 jan_1_2024 jun_30_2024)
    as (_ & Hbounds & _).
  destruct (Hbounds eq_refl eq_refl eq_refl) as [Hlo Hhi].
  split; [exact Hlo|]. split; [exact Hhi|].
  apply (proj2 (proj2 (proj2 (within_range_bounds
                                (mkDatetime 2024 3 15 10 0 0 0 (Some 0))
                                jan_1_2024 jun_30_2024)))).
  left. split; [reflexivity | discriminate].
Defined.

Lemma iso_shape_witness :
  String.length (iso jun_30_2024) = 10%nat ∧
  Str.matches Str.date_at (iso jun_30_2024) = true.
Proof.
  assert (1000 <= year jun_30_2024) as Hy by (simpl; lia).
  destruct (iso_has_the_date_shape jun_30_2024 Hy) as (Hlen & _ & Hmatch).
  split; [exact Hlen | exact Hmatch].
Defined.

End HelperSamples.
(** ** The orchestrator: what status 0 means *)

Section SavedOutput.

Context `{Browser} `{DateParser}.

Lemma parse_args_status (cl : CommandLine) (status : Z) :
  parse_args cl = inr status ->
  status = 2 ∨ (status = 0 ∧ opt_help cl = true).
Proof.
  unfold parse_args.
  destruct (source_rejected cl); [intros [= <-]; by left|].
  destruct (opt_help cl); [intros [= <-]; by right|].
  destruct (opt_company cl), (opt_start cl), (opt_end cl), (opt_source cl);
    try done; intros [= <-]; by left.
Qed.

(** X20. Status 0 means that the help was asked for, and then the disk
    is as it was, or that the reviews were saved: the arguments parsed,
    the dates parsed, the browser was launched and the adapter returned a
    list; at the end the output directory exists and the file
    [company_source_start_to_end.json] in it, the dates in the form
    YYYYMMDD, holds exactly that list. *)
Theorem status_0_means_saved (cl : CommandLine) (d d' : Disk) :
  main cl d = (0, d') ->
  (opt_help cl = true ∧ parse_args cl = inr 0 ∧ d' = d) ∨
  (opt_help cl = false ∧
   exists args start end_ page reviews,
     parse_args cl = inl args ∧
     dateparser_parse (arg_start args) = Ok start ∧
     dateparser_parse (arg_end args) = Ok end_ ∧
     launch = Ok page ∧
     dispatch page (arg_company args) start end_ (arg_source args) = Ok reviews ∧
     Os.is_dir d' (Os.Path (arg_outdir args)) = true ∧
     Os.lookup d'
       (Os.joinpath (Os.Path (arg_outdir args))
          (arg_company args +:+ "_" +:+ arg_source args +:+ "_"
           +:+ Datetime.strftime_compact start +:+ "_to_"
           +:+ Datetime.strftime_compact end_ +:+ ".json"))
     = Some (File (JsonDump reviews))).
Proof.
  unfold main. destruct (parse_args cl) as [args|status] eqn:Hargs.
  2: { intros [= -> <-]. left.
       by destruct (parse_args_status _ _ Hargs) as [?|[_ ?]]. }
  destruct (run_scraper _ _ _ _ _ d) as [d2 [[outpath reviews]|e]] eqn:Hrun;
    [|done].
  intros [= <-]. right.
  destruct (parse_args_inl _ _ Hargs) as (Hhelp & Hsrc & _).
  split; [done|].
  destruct (run_scraper_ok_inv _ _ _ _ _ _ _ _ _ Hrun)
    as (start & end_ & d1 & Hs & He & Hgt & Hrs & Hpath & Hmk & Hw).
  rewrite (lower_choice _ Hsrc) in Hrs, Hpath.
  destruct launch as [page|e] eqn:Hlaunch; [|done].
  unfold mbind, result_bind in Hrs.
  destruct (write_file_post _ _ _ (Os.Path (arg_outdir args)) _ Hw) as [Hfile Hkeep].
  exists args, start, end_, page, reviews.
  repeat split; try done.
  - apply Hkeep. by apply (Path_mkdir_post d).
  - by rewrite Hpath in Hfile.
Qed.

(** X22. A help flag read on the command line ends the process with
    status 0 before anything else is done: no date is parsed, no browser
    is launched and the disk is left as it was, whatever the other
    options are, given or not. *)
Theorem help_exits_with_status_0 (cl : CommandLine) (d : Disk) :
  source_rejected cl = false -> opt_help cl = true ->
  parse_args cl = inr 0 ∧ main cl d = (0, d).
Proof.
  intros Hsrc Hhelp. unfold main, parse_args. by rewrite Hsrc, Hhelp.
Qed.

Lemma store_goes_on (a : Arg) (cl : CommandLine) :
  ends_parsing a = false ->
  opt_help cl = false -> source_rejected cl = false ->
  opt_help (store a cl) = false ∧ source_rejected (store a cl) = false.
Proof.
  unfold source_rejected. by destruct a.
Qed.

Lemma read_args_stops (before after : list Arg) (stop : Arg) (cl : CommandLine) :
  Forall (fun a => ends_parsing a = false) before ->
  ends_parsing stop = true ->
  opt_help cl = false -> source_rejected cl = false ->
  exists cl', read_args (before ++ stop :: after) cl = store stop cl' ∧
              opt_help cl' = false ∧ source_rejected cl' = false.
Proof.
  revert cl. induction before as [|a before IH]; intros cl Hgo Hstop Hh Hs; simpl.
  - rewrite Hstop. by exists cl.
  - apply Forall_cons in Hgo as [Ha Hgo]. rewrite Ha.
    destruct (store_goes_on a cl Ha Hh Hs) as [Hh' Hs'].
    by apply IH.
Qed.

(** X24. Of a help flag and a value of [--source] outside its choices,
    the one that comes first on the command line decides: after options
    that do not end the process, a help flag ends it with status 0 and a
    rejected value of [--source] with status 2, whatever follows, and the
    disk is left as it was. *)
Theorem first_stop_decides (before after : list Arg) (d : Disk) :
  Forall (fun a => ends_parsing a = false) before ->
  main (read_args (before ++ ArgHelp :: after) no_option) d = (0, d) ∧
  (forall v, v ∉ source_choices ->
     main (read_args (before ++ ArgSource v :: after) no_option) d = (2, d)).
Proof.
  intros Hgo. split.
  - destruct (read_args_stops before after ArgHelp no_option Hgo eq_refl
                eq_refl eq_refl) as (cl' & -> & Hh & Hs).
    unfold main, parse_args. unfold source_rejected in *. simpl.
    by rewrite Hs.
  - intros v Hv.
    destruct (read_args_stops before after (ArgSource v) no_option Hgo)
      as (cl' & -> & Hh & Hs); [by apply bool_decide_eq_true | done..|].
    unfold main, parse_args, source_rejected. simpl.
    by rewrite bool_decide_eq_true_2.
Qed.

End SavedOutput.

Module SavedOutputSamples.

Import Sample.

Lemma saved_output_witness :
  exists d' reviews,
    main (H:=browser (fun _ => true) growing_site) (H0:=iso8601) g2_command empty_disk
    = (0, d') ∧
    Os.lookup d'
      (Os.joinpath (Os.Path "out/2024/reviews")
                   "zoho-crm_g2_20240101_to_20240630.json")
    = Some (File (JsonDump reviews)).
Proof.
  destruct (main (H:=browser (fun _ => true) growing_site) (H0:=iso8601)
              g2_command empty_disk) as [status d'] eqn:Hrun.
  assert (status = 0) as ->.
  { assert ((main (H:=browser (fun _ => true) growing_site) (H0:=iso8601)
               g2_command empty_disk).1 = 0) as Hstatus by (vm_compute; reflexivity).
    by rewrite Hrun in Hstatus. }
  destruct (status_0_means_saved (H:=browser (fun _ => true) growing_site)
              (H0:=iso8601) g2_command empty_disk d' Hrun)
    as [[Hhelp _]|(_ & args & start & end_ & page & reviews & Hargs & Hs & He
                     & _ & _ & _ & Hfile)];
    [discriminate|].
  injection Hargs as <-. simpl in Hs, He, Hfile.
  injection Hs as <-. injection He as <-.
  exists d', reviews. split; [reflexivity | exact Hfile].
Defined.

(** [--company zoho-crm --help --source foo] and
    [--company zoho-crm --source foo --help]. *)
Lemma first_stop_witness :
  main (H:=barren) (H0:=iso8601)
       (read_args [ArgCompany "zoho-crm"; ArgHelp; ArgSource "foo"] no_option)
       empty_disk
  = (0, empty_disk) ∧
  main (H:=barren) (H0:=iso8601)
       (read_args [ArgCompany "zoho-crm"; ArgSource "foo"; ArgHelp] no_option)
       empty_disk
  = (2, empty_disk).
Proof.
  assert (Forall (fun a => ends_parsing a = false) [ArgCompany "zoho-crm"])
    as Hgo by (by apply Forall_singleton).
  assert ("foo" ∉ source_choices) as Hnot.
  { unfold source_choices. rewrite !not_elem_of_cons.
    repeat split; [done..|]. apply not_elem_of_nil. }
  split.
  - exact (proj1 (first_stop_decides (H:=barren) (H0:=iso8601)
                    [ArgCompany "zoho-crm"] [ArgSource "foo"] empty_disk Hgo)).
  - exact (proj2 (first_stop_decides (H:=barren) (H0:=iso8601)
                    [ArgCompany "zoho-crm"] [ArgHelp] empty_disk Hgo) "foo" Hnot).
Defined.

(** The command [--help], on a site that would give reviews. *)
Lemma help_witness :
  main (H:=browser (fun _ => true) growing_site) (H0:=iso8601) help_command empty_disk
  = (0, empty_disk).
Proof.
  exact (proj2 (help_exits_with_status_0 (H:=browser (fun _ => true) growing_site)
                  (H0:=iso8601) help_command empty_disk eq_refl eq_refl)).
Defined.

End SavedOutputSamples.

(** ** The extractor: the fallback on the lines of the text *)

Section Fallback.

Import Script.

Lemma chars_of_chars (l : list ascii) : Str.chars (Str.of_chars l) = l.
Proof. apply list_ascii_of_string_of_list_ascii. Qed.

Lemma chars_append (a b : string) :
  Str.chars (a +:+ b) = Str.chars a ++ Str.chars b.
Proof. induction a as [|c a IH]; simpl; [done|]. by rewrite IH. Qed.

Lemma split_chars_no_sep (sep : ascii) (l cur : list ascii) :
  sep ∉ cur -> Forall (fun x => sep ∉ x) (Str.split_chars sep cur l).
Proof.
  revert cur. induction l as [|c l IH]; intros cur Hcur; simpl.
  - apply Forall_singleton. intros Hin. apply Hcur.
    apply list_elem_of_In. apply in_rev. by apply list_elem_of_In.
  - case_bool_decide as Hc.
    + apply Forall_cons. split.
      * intros Hin. apply Hcur. apply list_elem_of_In. apply in_rev.
        by apply list_elem_of_In.
      * apply IH. apply not_elem_of_nil.
    + apply IH. intros Hin. apply elem_of_cons in Hin as [?|?]; [congruence | done].
Qed.

Lemma drop_space_subset (l : list ascii) (x : ascii) :
  x ∈ Str.drop_space l -> x ∈ l.
Proof.
  induction l as [|c l IH]; simpl; [done|].
  destruct (Str.is_space c); [|done]. intros Hx. right. by apply IH.
Qed.

Lemma trim_subset (s : string) (x : ascii) :
  x ∈ Str.chars (Str.trim s) -> x ∈ Str.chars s.
Proof.
  unfold Str.trim. rewrite chars_of_chars. intros Hx.
  apply list_elem_of_In, in_rev, list_elem_of_In in Hx.
  apply drop_space_subset in Hx.
  apply list_elem_of_In, in_rev, list_elem_of_In in Hx.
  by apply drop_space_subset.
Qed.

Lemma join_newline_free (parts : list string) :
  Forall newline_free parts -> newline_free (Str.join " " parts).
Proof.
  unfold newline_free. induction parts as [|p rest IH]; intros Hall; simpl.
  - apply not_elem_of_nil.
  - apply Forall_cons in Hall as [Hp Hrest]. destruct rest as [|q rest]; [done|].
    rewrite !chars_append. intros Hin.
    apply elem_of_app in Hin as [Hin|Hin]; [done|].
    apply elem_of_app in Hin as [Hin|Hin].
    + simpl in Hin. apply list_elem_of_singleton in Hin. discriminate.
    + by apply IH.
Qed.

Lemma fallback_lines_shape (c : Element) :
  Forall (fun s => Str.non_empty s = true ∧ newline_free s) (fallback_lines c).
Proof.
  unfold fallback_lines. apply Forall_forall. intros s Hs.
  apply list_elem_of_filter in Hs as [Hne Hs]. split; [done|].
  apply list_elem_of_In, in_map_iff in Hs as (line & <- & Hline).
  unfold Str.split in Hline. apply in_map_iff in Hline as (l & <- & Hl).
  pose proof (split_chars_no_sep "010"%char (Str.chars (Str.trim (innerText c))) []
                (not_elem_of_nil _)) as Hall.
  rewrite Forall_forall in Hall. apply list_elem_of_In in Hl.
  specialize (Hall l Hl). unfold newline_free. intros Hin.
  apply trim_subset in Hin. by rewrite chars_of_chars in Hin.
Qed.

(** X21. When no descendant of a candidate matches the selector of the
    body, the fields come from the lines of its text.  With two non-empty
    lines or more, the body is the lines after the first joined by spaces
    and has no line feed, and the title is not empty (the heading found,
    or else the first line).  With fewer, the body is the whole trimmed
    text. *)
Theorem fallback_title_and_body (c : Element) :
  querySelector c
    ".review-text, .review-body, [class*=comment], [class*=content], p" = None ->
  ((2 <= length (fallback_lines c))%nat ->
   f_body (extract_fields c) = Str.join " " (tail (fallback_lines c)) ∧
   newline_free (f_body (extract_fields c)) ∧
   Str.non_empty (f_title (extract_fields c)) = true) ∧
  ((length (fallback_lines c) < 2)%nat ->
   f_body (extract_fields c) = Str.trim (innerText c)).
Proof.
  intros Hbody. unfold extract_fields. rewrite Hbody.
  fold (fallback_lines c). pose proof (fallback_lines_shape c) as Hshape.
  destruct (2 <=? length (fallback_lines c))%nat eqn:Hlen; simpl.
  - split; [|intros Hlt; apply Nat.leb_le in Hlen; lia].
    intros _. split; [done|]. split.
    + apply join_newline_free. apply Forall_forall. intros s Hs.
      rewrite Forall_forall in Hshape.
      destruct (fallback_lines c) as [|l0 ls]; [by apply elem_of_nil in Hs|].
      simpl in Hs. apply (Hshape s). by right.
    + destruct (querySelector c "h1, h2, h3, .review-title, [class*=title]")
        as [h|]; [destruct (Str.non_empty (Str.trim (innerText h))) eqn:Ht0; [done|]|];
        simpl; (destruct (fallback_lines c) as [|l0 ls]; [done|]; simpl;
                by apply Forall_cons in Hshape as [[Hne _] _]).
  - split; [intros Hge; apply Nat.leb_gt in Hlen; lia | done].
Qed.

End Fallback.

Module FallbackSamples.

Import Script.

Lemma fallback_witness :
  f_title (extract_fields plain_card) = "Great tool" ∧
  newline_free (f_body (extract_fields plain_card)).
Proof.
  split; [reflexivity|].
  refine (proj1 (proj2 (proj1 (fallback_title_and_body plain_card eq_refl) _))).
  vm_compute. repeat constructor.
Defined.

End FallbackSamples.
